(** * detran-leilao-crawler: a shallow embedding of the crawl core

    The Python sources under [src/detran_leilao_crawler] are embedded as
    Rocq functions: dictionaries as finite maps or association lists,
    mutable objects as explicit state passing, exceptions as result
    constructors.  Text is modelled as byte strings ([string]): a
    character outside ASCII is the sequence of its UTF-8 bytes, and case
    and whitespace are those of ASCII.  Clock readings and delays, which
    the program holds as floats, are modelled as rationals ([Q]); a float
    in the data is a rational, an infinity or a NaN ([pyfloat]), without
    rounding. *)

From Stdlib Require Import ZArith QArith Qminmax Lia Lqa Ascii String.
From stdpp Require Import base gmap sets list strings sorting pretty.

Local Open Scope Z_scope.

(* ===================================================================== *)
(** ** checkpoint.py *)
(* ===================================================================== *)

(** [CrawlCheckpoint.pages_done : Dict[str, Set[int]]].  The [path] field
    is fixed for a run; the file behind it is the [checkpoint_file]
    threaded through [load] and [save]. *)
Record CrawlCheckpoint := MkCheckpoint {
  pages_done : gmap string (gset Z)
}.

(** The JSON document behind [path]: [{"pages_done": {id: [pages]}}].
    [doc_pages_done = None] is a document without the ["pages_done"] key. *)
Record checkpoint_doc := MkDoc {
  doc_pages_done : option (list (string * list Z))
}.

(** [None] when [path] does not exist. *)
Definition checkpoint_file := option checkpoint_doc.

(** [{k: set(v) for k, v in items}]: a later item with the same key
    replaces an earlier one. *)
Definition dict_of_items (items : list (string * list Z)) : gmap string (gset Z) :=
  foldl (fun m kv => <[kv.1 := list_to_set kv.2]> m) ∅ items.

Definition load (file : checkpoint_file) (self : CrawlCheckpoint) : CrawlCheckpoint :=
  match file with
  | None => self
  | Some data =>
      MkCheckpoint (dict_of_items (default [] (doc_pages_done data)))
  end.

(** [sorted(list(v))] *)
Definition sorted (v : gset Z) : list Z := merge_sort Z.le (elements v).

Definition save (self : CrawlCheckpoint) : checkpoint_file :=
  Some (MkDoc (Some (map_to_list (sorted <$> pages_done self)))).

Definition is_page_done (self : CrawlCheckpoint) (auction_id : string) (page : Z) : bool :=
  bool_decide (page ∈ default ∅ (pages_done self !! auction_id)).

(** [self.pages_done.setdefault(auction_id, set()).add(page)] *)
Definition mark_page_done (self : CrawlCheckpoint) (auction_id : string) (page : Z)
  : CrawlCheckpoint :=
  MkCheckpoint
    (<[auction_id := default ∅ (pages_done self !! auction_id) ∪ {[page]}]>
       (pages_done self)).

(** A history of [mark_page_done] calls applied to a fresh checkpoint. *)
Definition mark_all (ops : list (string * Z)) (self : CrawlCheckpoint) : CrawlCheckpoint :=
  foldl (fun cp op => mark_page_done cp op.1 op.2) self ops.

Definition fresh_checkpoint : CrawlCheckpoint := MkCheckpoint ∅.

(* ===================================================================== *)
(** ** retry.py *)
(* ===================================================================== *)

Record RetryPolicy := MkRetryPolicy {
  max_attempts : Z;
  base_delay_sec : Q;
  max_delay_sec : Q;
  jitter : Q
}.

Definition default_policy : RetryPolicy :=
  MkRetryPolicy 4 (3 # 4) 8 (1 # 4).

(** How a call of [retry_call] ends. [AssertionError] is the failed
    [assert last_exc is not None] after a loop that never ran. *)
Inductive outcome (T E : Type) :=
| Returned (v : T)
| Raised (exc : E)
| AssertionError.
Arguments Returned {T E} v.
Arguments Raised {T E} exc.
Arguments AssertionError {T E}.

(** What the surroundings have seen of a run: how often [fn] was invoked
    and the arguments of [time.sleep], oldest first. *)
Record retry_world := MkWorld {
  calls : nat;
  sleeps : list Q
}.

Definition initial_world : retry_world := MkWorld 0 [].

(** [random.uniform(a, b)] for a draw [r] of [random.random()]. *)
Definition uniform (a b r : Q) : Q := (a + (b - a) * r)%Q.

Definition backoff_delay (policy : RetryPolicy) (attempt : Z) (r : Q) : Q :=
  let delay := Qmin (max_delay_sec policy)
                    (base_delay_sec policy * Qpower 2 (attempt - 1))%Q in
  let delay := (delay * (1 + uniform (- jitter policy) (jitter policy) r))%Q in
  Qmax 0 delay.

Section retry.
Context {T E : Type}.
(** [fn n] is what the [n]-th invocation of the callable does (counted
    from 0): return a value or raise. *)
Variable fn : nat -> T + E.
Variable policy : RetryPolicy.
Variable should_retry : E -> bool.
(** The draws of [random.random()], one per sleep. *)
Variable rnd : nat -> Q.

(** The body of [for attempt in range(1, policy.max_attempts + 1)]
    followed by the statements after the loop. *)
Fixpoint retry_loop (attempts : list Z) (last_exc : option E) (w : retry_world)
  : outcome T E * retry_world :=
  match attempts with
  | [] =>
      match last_exc with
      | Some exc => (Raised exc, w)
      | None => (AssertionError, w)
      end
  | attempt :: rest =>
      let w1 := MkWorld (S (calls w)) (sleeps w) in
      match fn (calls w) with
      | inl v => (Returned v, w1)
      | inr exc =>
          if (attempt >=? max_attempts policy) || negb (should_retry exc)
          then (Raised exc, w1)
          else
            let delay := backoff_delay policy attempt (rnd (length (sleeps w))) in
            retry_loop rest (Some exc) (MkWorld (calls w1) (sleeps w1 ++ [delay]))
      end
  end.

Definition retry_call (w : retry_world) : outcome T E * retry_world :=
  retry_loop (seqZ 1 (max_attempts policy)) None w.

(** Invocation [i] raises an error that [should_retry] accepts. *)
Definition fails_retryably (i : nat) : Prop :=
  exists exc, fn i = inr exc /\ should_retry exc = true.
End retry.

(* ===================================================================== *)
(** ** rate_limit.py *)
(* ===================================================================== *)




(* ===================================================================== *)
(** ** robots.py *)
(* ===================================================================== *)

Section robots.
(** The state of a [urllib.robotparser.RobotFileParser]. *)
Context {Rules : Type}.

Record RobotsPolicy := MkRobots {
  base_url : string;
  user_agent : string;
  _rp : Rules;
  _loaded : bool
}.

(** [RobotFileParser.parse(lines)] on the current rules; it returns
    normally or raises, leaving some rules behind either way. *)
Inductive parse_result :=
| ParseOk (rp : Rules)
| ParseRaised (rp : Rules).

Variable rp_empty : Rules.
Variable rp_parse : Rules -> string -> parse_result.
Variable rp_can_fetch : Rules -> string -> string -> bool.

(** What fetching [robots.txt] gives: the decoded body, or an
    exception anywhere between [urlparse] and [decode]. *)
Inductive fetch_result :=
| FetchOk (content : string)
| FetchRaised.

Definition new_policy (base ua : string) : RobotsPolicy :=
  MkRobots base ua rp_empty false.

Definition robots_load (fetched : fetch_result) (self : RobotsPolicy) : RobotsPolicy :=
  match fetched with
  | FetchRaised => MkRobots (base_url self) (user_agent self) (_rp self) false
  | FetchOk content =>
      match rp_parse (_rp self) content with
      | ParseOk rp => MkRobots (base_url self) (user_agent self) rp true
      | ParseRaised rp => MkRobots (base_url self) (user_agent self) rp false
      end
  end.

Definition can_fetch (self : RobotsPolicy) (url : string) : bool :=
  if negb (_loaded self) then true
  else rp_can_fetch (_rp self) (user_agent self) url.

(** The [except] branch of [load] was taken. *)
Definition load_failed (fetched : fetch_result) (self : RobotsPolicy) : bool :=
  match fetched with
  | FetchRaised => true
  | FetchOk content =>
      match rp_parse (_rp self) content with
      | ParseOk _ => false
      | ParseRaised _ => true
      end
  end.

(** A policy that allows every URL. *)
Definition allow_all (url : string) : bool := true.
End robots.
Arguments RobotsPolicy Rules : clear implicits.
Arguments parse_result Rules : clear implicits.


(* ===================================================================== *)
(** ** Python string operations on byte strings *)
(* ===================================================================== *)

Local Open Scope string_scope.

(** [str.isspace] on the ASCII range: tab to carriage return, the four
    separators 28..31 and the space. *)
Definition py_isspace (c : ascii) : bool :=
  let n := nat_of_ascii c in
  ((9 <=? n) && (n <=? 13) || (28 <=? n) && (n <=? 32))%nat.

Definition lower_char (c : ascii) : ascii :=
  let n := nat_of_ascii c in
  if ((65 <=? n) && (n <=? 90))%nat then ascii_of_nat (n + 32) else c.

Definition upper_char (c : ascii) : ascii :=
  let n := nat_of_ascii c in
  if ((97 <=? n) && (n <=? 122))%nat then ascii_of_nat (n - 32) else c.

Fixpoint map_string (f : ascii -> ascii) (s : string) : string :=
  match s with
  | EmptyString => EmptyString
  | String c s' => String (f c) (map_string f s')
  end.

(** [s.lower()] and [s.upper()] *)
Definition lower (s : string) : string := map_string lower_char s.
Definition upper (s : string) : string := map_string upper_char s.

Fixpoint lstrip (s : string) : string :=
  match s with
  | EmptyString => EmptyString
  | String c s' => if py_isspace c then lstrip s' else s
  end.

Definition str_rev (s : string) : string :=
  string_of_list_ascii (rev (list_ascii_of_string s)).

Definition rstrip (s : string) : string := str_rev (lstrip (str_rev s)).

(** [s.strip()] *)
Definition strip (s : string) : string := rstrip (lstrip s).

(** [needle in hay] *)
Fixpoint str_in (needle hay : string) : bool :=
  String.prefix needle hay
  || match hay with
     | EmptyString => false
     | String _ hay' => str_in needle hay'
     end.

(** [s[:n]] *)
Definition str_take (n : nat) (s : string) : string := String.substring 0 n s.

(** Truth value of a string: [bool(s)] *)
Definition str_truthy (s : string) : bool :=
  match s with EmptyString => false | _ => true end.

(** Truth value of an optional string: [None] and [""] are false. *)
Definition opt_truthy (s : option string) : bool :=
  match s with Some s => str_truthy s | None => false end.

(** A needle that starts with a character that is not whitespace, and
    one that has no whitespace at all. *)
Definition starts_solid (w : string) : Prop :=
  match w with
  | EmptyString => False
  | String c _ => py_isspace c = false
  end.

Fixpoint all_solid (w : string) : bool :=
  match w with
  | EmptyString => true
  | String c w' => negb (py_isspace c) && all_solid w'
  end.

(* ===================================================================== *)
(** ** Regular expressions (the part of [re] the sources use) *)
(* ===================================================================== *)

(** Patterns.  [Star true r] is the greedy [r*], [Star false r] the lazy
    [r*?]; [Group n r] is the [n]-th capturing group; [WordB] is [\b] and
    [Eos] is [$]. *)
Inductive regex :=
| Eps
| Chr (p : ascii -> bool)
| Cat (r1 r2 : regex)
| Alt (r1 r2 : regex)
| Star (greedy : bool) (r : regex)
| Group (n : nat) (r : regex)
| WordB
| Eos.

(** Where a match attempt stands: the text still to read, the character
    just before it, the number of characters read since the start of the
    subject, and the groups captured so far. *)
Record rstate := MkRState {
  rs_rest : string;
  rs_prev : option ascii;
  rs_pos : nat;
  rs_groups : list (nat * string)
}.

Definition is_digit (c : ascii) : bool :=
  let n := nat_of_ascii c in ((48 <=? n) && (n <=? 57))%nat.

Definition is_alpha (c : ascii) : bool :=
  let n := nat_of_ascii c in
  ((65 <=? n) && (n <=? 90) || (97 <=? n) && (n <=? 122))%nat.

(** [\w]: letters, digits, underscore; the bytes of a character outside
    ASCII count as letters. *)
Definition is_word (c : ascii) : bool :=
  is_alpha c || is_digit c || Ascii.eqb c "_" || (128 <=? nat_of_ascii c)%nat.

Definition opt_word (c : option ascii) : bool :=
  match c with Some c => is_word c | None => false end.

Definition head_char (s : string) : option ascii :=
  match s with String c _ => Some c | EmptyString => None end.

Definition or_else {A} (a b : option A) : option A :=
  match a with Some _ => a | None => b end.

Definition set_group (n : nat) (v : string) (gs : list (nat * string))
  : list (nat * string) :=
  (n, v) :: List.filter (fun g => negb (Nat.eqb g.1 n)) gs.

(** Backtracking matcher in continuation-passing style.  [fuel] bounds the
    iterations of a [Star]; every iteration must read at least one
    character, so the length of the subject plus one is always enough. *)
Fixpoint rmatch {R} (fuel : nat) : regex -> rstate -> (rstate -> option R) -> option R :=
  fix go (r : regex) (st : rstate) (k : rstate -> option R) {struct r} : option R :=
    match r with
    | Eps => k st
    | Chr p =>
        match rs_rest st with
        | String c s' =>
            if p c then k (MkRState s' (Some c) (S (rs_pos st)) (rs_groups st)) else None
        | EmptyString => None
        end
    | Cat r1 r2 => go r1 st (fun st' => go r2 st' k)
    | Alt r1 r2 => or_else (go r1 st k) (go r2 st k)
    | Star greedy r1 =>
        let more :=
          match fuel with
          | O => None
          | S fuel' =>
              go r1 st (fun st' =>
                if (rs_pos st <? rs_pos st')%nat
                then rmatch fuel' (Star greedy r1) st' k
                else None)
          end in
        if greedy then or_else more (k st) else or_else (k st) more
    | Group n r1 =>
        go r1 st (fun st' =>
          k (MkRState (rs_rest st') (rs_prev st') (rs_pos st')
               (set_group n (String.substring 0 (rs_pos st' - rs_pos st) (rs_rest st))
                  (rs_groups st'))))
    | WordB =>
        if xorb (opt_word (rs_prev st)) (opt_word (head_char (rs_rest st)))
        then k st else None
    | Eos =>
        match rs_rest st with
        | EmptyString => k st
        | String c EmptyString => if Ascii.eqb c "010" then k st else None
        | _ => None
        end
    end.

(** A successful match: where it starts and ends in the subject, and its
    groups. *)
Record rmatch_result := MkMatch {
  m_start : nat;
  m_end : nat;
  m_groups : list (nat * string)
}.

Fixpoint search_from (fuel : nat) (r : regex) (s : string) (prev : option ascii)
    (start : nat) : option rmatch_result :=
  or_else
    (rmatch fuel r (MkRState s prev start [])
       (fun st => Some (MkMatch start (rs_pos st) (rs_groups st))))
    (match s with
     | EmptyString => None
     | String c s' => search_from fuel r s' (Some c) (S start)
     end).

(** [re.search(r, s)] *)
Definition re_search (r : regex) (s : string) : option rmatch_result :=
  search_from (S (String.length s)) r s None 0.

(** [m.group(n)] for [n >= 1]; [None] when the group took no part. *)
Definition group (m : rmatch_result) (n : nat) : option string :=
  snd <$> List.find (fun g => Nat.eqb g.1 n) (m_groups m).

(** [m.group(0)] *)
Definition group0 (s : string) (m : rmatch_result) : string :=
  String.substring (m_start m) (m_end m - m_start m) s.

(** Pattern builders. *)
Definition chr (c : ascii) : regex := Chr (Ascii.eqb c).
Definition chr_i (c : ascii) : regex :=
  Chr (fun x => Ascii.eqb (lower_char x) (lower_char c)).
Fixpoint lit (s : string) : regex :=
  match s with
  | EmptyString => Eps
  | String c s' => Cat (chr c) (lit s')
  end.
Fixpoint lit_i (s : string) : regex :=
  match s with
  | EmptyString => Eps
  | String c s' => Cat (chr_i c) (lit_i s')
  end.
Definition plus (r : regex) : regex := Cat r (Star true r).
Definition plus_lazy (r : regex) : regex := Cat r (Star false r).
Definition opt (r : regex) : regex := Alt r Eps.
Fixpoint cats (rs : list regex) : regex :=
  match rs with
  | [] => Eps
  | [r] => r
  | r :: rs' => Cat r (cats rs')
  end.
(** [r{lo,hi}]: [lo] copies, then up to [hi - lo] more, as many as match. *)
Fixpoint at_most (n : nat) (r : regex) : regex :=
  match n with
  | O => Eps
  | S n' => opt (Cat r (at_most n' r))
  end.
Fixpoint exactly (n : nat) (r : regex) : regex :=
  match n with
  | O => Eps
  | S n' => Cat r (exactly n' r)
  end.
Definition repeat_range (lo hi : nat) (r : regex) : regex :=
  Cat (exactly lo r) (at_most (hi - lo) r).

Definition digit : regex := Chr is_digit.
Definition space : regex := Chr py_isspace.
Definition spaces : regex := Star true space.
(** [.]: any character but a newline *)
Definition dot : regex := Chr (fun c => negb (Ascii.eqb c "010")).

(** [re.sub(r, repl, s)] for a constant replacement: the matches are
    taken from left to right, each starting where the one before ended. *)
Fixpoint re_sub_go (steps : nat) (r : regex) (repl s : string) (prev : option ascii)
    : string :=
  match steps with
  | O => s
  | S steps' =>
      match search_from (S (String.length s)) r s prev 0 with
      | None => s
      | Some m =>
          let before := String.substring 0 (m_start m) s in
          let after := String.substring (m_end m) (String.length s - m_end m) s in
          if (m_start m <? m_end m)%nat then
            before ++ repl
            ++ re_sub_go steps' r repl after
                 (head_char (String.substring (m_end m - 1) 1 s))
          else
            (* an empty match: replace, keep the next character, go on *)
            match after with
            | EmptyString => before ++ repl
            | String c after' =>
                before ++ repl ++ String c
                  (re_sub_go steps' r repl after' (Some c))
            end
      end
  end.

Definition re_sub (r : regex) (repl s : string) : string :=
  re_sub_go (S (String.length s)) r repl s None.

(** [s.replace(old, new)] for a non-empty [old]. *)
Fixpoint str_replace_go (skip : nat) (old new s : string) : string :=
  match s with
  | EmptyString => EmptyString
  | String c s' =>
      match skip with
      | S skip' => str_replace_go skip' old new s'
      | O =>
          if String.prefix old s
          then new ++ str_replace_go (String.length old - 1) old new s'
          else String c (str_replace_go 0 old new s')
      end
  end.

Definition str_replace (old new s : string) : string := str_replace_go 0 old new s.

(** [sep.join(parts)] *)
Fixpoint str_join (sep : string) (parts : list string) : string :=
  match parts with
  | [] => ""
  | [x] => x
  | x :: rest => x ++ sep ++ str_join sep rest
  end.

(* ===================================================================== *)
(** ** Python values *)
(* ===================================================================== *)

(** A [datetime.datetime] value; [dt_utcoffset] is [None] for a naive
    one, else the offset in seconds. *)
Record datetime := MkDatetime {
  dt_year : Z; dt_month : Z; dt_day : Z;
  dt_hour : Z; dt_minute : Z; dt_second : Z; dt_microsecond : Z;
  dt_utcoffset : option Z
}.

(** A [float]: a finite value, an infinity or a NaN. *)
Inductive pyfloat :=
| FFinite (q : Q)
| FInf (negative : bool)
| FNan.

(** [a > b] on floats *)
Definition float_gt (a b : pyfloat) : bool :=
  match a, b with
  | FNan, _ | _, FNan => false
  | FFinite x, FFinite y => negb (Qle_bool x y)
  | FInf neg, FFinite _ => negb neg
  | FFinite _, FInf neg => neg
  | FInf n1, FInf n2 => negb n1 && n2
  end.

(** [float(z)] for an integer *)
Definition float_of_Z (z : Z) : pyfloat := FFinite (inject_Z z).

(** [int(f)]: truncation towards zero; [None] where Python raises
    ([ValueError] for a NaN, [OverflowError] for an infinity). *)
Definition int_of_float (f : pyfloat) : option Z :=
  match f with
  | FFinite q => Some (Z.quot (Qnum q) (Zpos (Qden q)))
  | _ => None
  end.

(** A decoded JSON document.  The entries of a [JDict] have pairwise
    distinct keys, as those of a Python [dict] do. *)
#[local] Unset Elimination Schemes.
Inductive json :=
| JNull
| JBool (b : bool)
| JInt (z : Z)
| JFloat (f : pyfloat)
| JStr (s : string)
| JList (items : list json)
| JDict (entries : list (string * json)).
#[local] Set Elimination Schemes.

Definition is_null (v : json) : bool :=
  match v with JNull => true | _ => false end.

(** [bool(v)] *)
Definition json_truthy (v : json) : bool :=
  match v with
  | JNull => false
  | JBool b => b
  | JInt z => negb (z =? 0)%Z
  | JFloat (FFinite q) => negb (Qeq_bool q 0)
  | JFloat _ => true
  | JStr s => str_truthy s
  | JList l => negb (Nat.eqb (length l) 0)
  | JDict d => negb (Nat.eqb (length d) 0)
  end.

(** [d.get(k)]; [None] when the key is absent. *)
Fixpoint dict_get (d : list (string * json)) (k : string) : option json :=
  match d with
  | [] => None
  | (k', v) :: d' => if String.eqb k' k then Some v else dict_get d' k
  end.

(** What the program takes from outside its own sources: number and
    date conversions of the Python library and [urljoin]. *)
Class Runtime := {
  (** [str(x)] of a float *)
  float_str : pyfloat -> string;
  (** [repr(s)] of a string, as it shows inside a printed list or dict *)
  str_repr : string -> string;
  (** [float(s)]; [None] for a [ValueError] *)
  py_float : string -> option pyfloat;
  (** [datetime.fromisoformat(s)]; [None] when it raises *)
  fromisoformat : string -> option datetime;
  (** [datetime.fromtimestamp(x)]; [None] when it raises *)
  fromtimestamp : pyfloat -> option datetime;
  (** [dateutil.parser.parse(s, dayfirst=True, fuzzy=True)]; [None]
      when it raises *)
  dateparser_parse : string -> option datetime;
  (** [urllib.parse.urljoin(base, url)] *)
  urljoin : string -> string -> string
}.

(* ===================================================================== *)
(** ** models.py *)
(* ===================================================================== *)

Record Auction := MkAuction {
  auction_auction_id : string;
  auction_url : string;
  auction_number : option string;
  auction_city : option string;
  auction_yard : option string;
  auction_organizer : option string;
  auction_status : option string;
  auction_ends_at : option datetime
}.

Record Lot := MkLot {
  auction_id : string;
  lot_id : string;
  description_short : string;
  brand_model : option string;
  year : option Z;
  situation : option string;
  start_bid : option pyfloat;
  ends_at : option datetime;
  lot_url : option string;
  image_urls : list string;
  requires_login : bool;
  raw_text : option string
}.

(* ===================================================================== *)
(** ** filters.py *)
(* ===================================================================== *)

(** [(s or "").strip().lower()] *)
Definition _norm (s : option string) : string :=
  lower (strip (default "" s)).

Record FiltersConfig := MkFiltersConfig {
  ignore_requires_login : bool;
  ignore_sucata : bool;
  tipo_veiculo : option string;
  marcas_permitidas : option (list string);
  ano_min : option Z;
  ano_max : option Z;
  valor_max : option pyfloat;
  descricao_keywords_all : option (list string);
  descricao_keywords_any : option (list string)
}.




(** Truth value of an optional list: [None] and [[]] are false. *)
Definition list_truthy {A} (l : option (list A)) : bool :=
  match l with Some (_ :: _) => true | _ => false end.

(** A statement of [accept] either returns a verdict or falls through. *)
Definition verdict := option bool.

(** [if c: return False] *)
Definition reject_if (c : bool) : verdict := if c then Some false else None.

(** [_norm(lot.description_short) + " " + _norm(lot.raw_text)] *)
Definition lot_desc (lot : Lot) : string :=
  _norm (Some (description_short lot)) ++ " " ++ _norm (raw_text lot).

(** [[_norm(k) for k in kws if _norm(k)]] *)
Definition norm_keywords (kws : list string) : list string :=
  List.filter str_truthy (List.map (fun k => _norm (Some k)) kws).

Definition check_requires_login (cfg : FiltersConfig) (lot : Lot) : verdict :=
  reject_if (ignore_requires_login cfg && requires_login lot).

Definition check_sucata (cfg : FiltersConfig) (lot : Lot) : verdict :=
  reject_if (ignore_sucata cfg && str_in "sucata" (lot_desc lot)).

Definition check_tipo_veiculo (cfg : FiltersConfig) (lot : Lot) : verdict :=
  if opt_truthy (tipo_veiculo cfg) then
    let tv := _norm (tipo_veiculo cfg) in
    if String.eqb tv "moto" && negb (str_in "moto" (lot_desc lot)) then Some false
    else if String.eqb tv "carro"
            && existsb (fun k => str_in k (lot_desc lot)) ["moto"; "motocic"]
    then Some false
    else None
  else None.

Definition check_marcas_permitidas (cfg : FiltersConfig) (lot : Lot) : verdict :=
  if list_truthy (marcas_permitidas cfg) then
    let allowed := norm_keywords (default [] (marcas_permitidas cfg)) in
    let bm := _norm (brand_model lot) ++ " " ++ _norm (Some (description_short lot)) in
    reject_if (negb (Nat.eqb (length allowed) 0)
               && negb (existsb (fun a => str_in a bm) allowed))
  else None.

Definition check_ano_min (cfg : FiltersConfig) (lot : Lot) : verdict :=
  match ano_min cfg, year lot with
  | Some lo, Some y => reject_if (y <? lo)%Z
  | _, _ => None
  end.

Definition check_ano_max (cfg : FiltersConfig) (lot : Lot) : verdict :=
  match ano_max cfg, year lot with
  | Some hi, Some y => reject_if (y >? hi)%Z
  | _, _ => None
  end.

Definition check_valor_max (cfg : FiltersConfig) (lot : Lot) : verdict :=
  match valor_max cfg, start_bid lot with
  | Some vmax, Some bid => reject_if (float_gt bid vmax)
  | _, _ => None
  end.

Definition check_keywords_all (cfg : FiltersConfig) (lot : Lot) : verdict :=
  if list_truthy (descricao_keywords_all cfg) then
    let kws := norm_keywords (default [] (descricao_keywords_all cfg)) in
    reject_if (existsb (fun k => negb (str_in k (lot_desc lot))) kws)
  else None.

Definition check_keywords_any (cfg : FiltersConfig) (lot : Lot) : verdict :=
  if list_truthy (descricao_keywords_any cfg) then
    let kws := norm_keywords (default [] (descricao_keywords_any cfg)) in
    reject_if (negb (Nat.eqb (length kws) 0)
               && negb (existsb (fun k => str_in k (lot_desc lot)) kws))
  else None.

(** The statements of [accept] in source order. *)
Definition accept_checks : list (FiltersConfig -> Lot -> verdict) :=
  [ check_requires_login; check_sucata; check_tipo_veiculo;
    check_marcas_permitidas; check_ano_min; check_ano_max; check_valor_max;
    check_keywords_all; check_keywords_any ].

(** Run the statements in order; the first verdict is the result, and
    falling off the end is the final [return True]. *)
Fixpoint run_checks (checks : list (FiltersConfig -> Lot -> verdict))
    (cfg : FiltersConfig) (lot : Lot) : bool :=
  match checks with
  | [] => true
  | check :: rest =>
      match check cfg lot with
      | Some v => v
      | None => run_checks rest cfg lot
      end
  end.

(** [FilterEngine.accept] *)
Definition accept (cfg : FiltersConfig) (lot : Lot) : bool :=
  run_checks accept_checks cfg lot.

(** [filter_lots] *)
Definition filter_lots (lots : list Lot) (cfg : FiltersConfig) : list Lot :=
  List.filter (accept cfg) lots.






(** A lot with the defaults of the dataclass for all optional fields. *)
Definition mk_lot (aid lid desc : string) (login : bool) : Lot :=
  MkLot aid lid desc None None None None None None [] login None.

(* ===================================================================== *)
(** ** logging_utils.py *)
(* ===================================================================== *)

Section logging_utils.
Context `{rt : Runtime}.

(** [safe_float]: [None] for an empty or absent text and for a text that
    [float] refuses. *)
Definition safe_float (text : option string) : option pyfloat :=
  match text with
  | None => None
  | Some text =>
      if negb (str_truthy text) then None
      else
        let t := strip (str_replace "," "."
                         (str_replace "." ""
                            (str_replace " " "" (str_replace "R$" "" text)))) in
        py_float t
  end.
End logging_utils.

(* ===================================================================== *)
(** ** api_json.py *)
(* ===================================================================== *)

Section api_json.
Context `{rt : Runtime}.

(** [repr(v)] *)
Fixpoint py_repr (v : json) : string :=
  match v with
  | JNull => "None"
  | JBool true => "True"
  | JBool false => "False"
  | JInt z => pretty z
  | JFloat f => float_str f
  | JStr s => str_repr s
  | JList l => "[" ++ str_join ", " (List.map py_repr l) ++ "]"
  | JDict d =>
      "{" ++ str_join ", "
               (List.map (fun kv => let '(k, x) := kv in
                                    str_repr k ++ ": " ++ py_repr x) d)
          ++ "}"
  end.

(** [str(v)] *)
Definition py_str (v : json) : string :=
  match v with
  | JStr s => s
  | _ => py_repr v
  end.

(** The keys under which [_iter_candidate_item_lists] looks for a list. *)
Definition container_keys : list string :=
  ["items"; "content"; "data"; "result"; "results"; "registros"; "lotes";
   "lots"; "rows"].

(** [isinstance(x, (dict, str, int))]; a [bool] is an [int]. *)
Definition is_dict_str_int (x : json) : bool :=
  match x with
  | JDict _ | JStr _ | JInt _ | JBool _ => true
  | _ => false
  end.

(** The lists that [_iter_candidate_item_lists] yields, in order. *)
Fixpoint _iter_candidate_item_lists (obj : json) : list (list json) :=
  match obj with
  | JList l => [l]
  | JDict d =>
      (* v = obj.get(key), then the two isinstance branches *)
      let under_key :=
        fix under_key (es : list (string * json)) (key : string)
          : list (list json) :=
          match es with
          | [] => []
          | (k, v) :: es' =>
              if String.eqb k key then
                match v with
                | JList l => [l]
                | JDict _ => _iter_candidate_item_lists v
                | _ => []
                end
              else under_key es' key
          end in
      List.flat_map (under_key d) container_keys
      ++ List.flat_map
           (fun kv : string * json =>
              match kv.2 with
              | JList (x :: l) => if is_dict_str_int x then [x :: l] else []
              | _ => []
              end) d
  | _ => []
  end.

(** The first [Some] that [f] gives along [keys]. *)
Fixpoint first_some {A B} (f : A -> option B) (keys : list A) : option B :=
  match keys with
  | [] => None
  | k :: keys' => or_else (f k) (first_some f keys')
  end.

(** [obj[k]] when [k in obj and obj[k] is not None] *)
Definition get_not_none (obj : list (string * json)) (k : string) : option json :=
  match dict_get obj k with
  | Some v => if is_null v then None else Some v
  | None => None
  end.

(** [low.get(k)] for [low = {str(k).lower(): k for k in obj.keys()}]: the
    last key of [obj] that lower-cases to [k]. *)
Definition low_get (obj : list (string * json)) (k : string) : option string :=
  List.find (fun key => String.eqb (lower key) k) (rev (List.map fst obj)).

Definition _get_first (obj : list (string * json)) (keys : list string) : option json :=
  or_else
    (first_some (get_not_none obj) keys)
    (first_some
       (fun k => match low_get obj (lower k) with
                 | Some kk => get_not_none obj kk
                 | None => None
                 end) keys).

(** [x / 1000.0] *)
Definition float_div_1000 (f : pyfloat) : pyfloat :=
  match f with
  | FFinite q => FFinite (q / 1000)
  | _ => f
  end.

(** The numeric branch of [_parse_dt]. *)
Definition parse_dt_number (value : pyfloat) : option datetime :=
  if float_gt value (FFinite 10000000000)
  then fromtimestamp (float_div_1000 value)
  else fromtimestamp value.

(** [_parse_dt] on what [_get_first] returns. *)
Definition _parse_dt (value : option json) : option datetime :=
  match value with
  | None | Some JNull => None
  | Some (JBool b) => parse_dt_number (float_of_Z (if b then 1 else 0))
  | Some (JInt z) => parse_dt_number (float_of_Z z)
  | Some (JFloat f) => parse_dt_number f
  | Some (JStr value) =>
      let s := strip value in
      if negb (str_truthy s) then None
      else or_else (fromisoformat (str_replace "Z" "+00:00" s))
                   (dateparser_parse s)
  | Some _ => None
  end.

Definition total_pages_keys : list string :=
  ["totalPages"; "total_pages"; "paginas"; "qtdPaginas"; "lastPage"].

Definition get_total_pages (obj : json) : option Z :=
  match obj with
  | JDict d =>
      match _get_first d total_pages_keys with
      | Some (JBool b) => Some (if b then 1 else 0)
      | Some (JInt z) => Some z
      | Some (JFloat f) => int_of_float f
      | _ => None
      end
  | _ => None
  end.

(** [(19\d{2}|20\d{2})] *)
Definition re_year_loose : regex :=
  Group 1 (Alt (Cat (lit "19") (exactly 2 digit)) (Cat (lit "20") (exactly 2 digit))).

(** [int(s)] for a string of ASCII digits *)
Definition int_of_digits (s : string) : Z :=
  fold_left (fun acc c => 10 * acc + Z.of_nat (nat_of_ascii c - 48))
    (list_ascii_of_string s) 0.

(** The id-like keys that make a list plausible. *)
Definition id_like_keys : list string :=
  ["lote"; "loteid"; "id"; "numero"; "numerolote"; "codigolote"].

(** The description-like keys, besides any key that contains "desc". *)
Definition desc_like_keys : list string := ["modelo"; "marca"; "marcamodelo"].

(** [sample_keys = {k.lower() for k in sample.keys()}] *)
Definition sample_keys (sample : list (string * json)) : list string :=
  List.map (fun kv => lower kv.1) sample.

Definition in_keys (k : string) (keys : list string) : bool :=
  existsb (String.eqb k) keys.

Definition has_id_like_key (sample : list (string * json)) : bool :=
  existsb (fun k => in_keys k (sample_keys sample)) id_like_keys.

Definition has_desc_like_key (sample : list (string * json)) : bool :=
  existsb (str_in "desc") (sample_keys sample)
  || existsb (fun k => in_keys k (sample_keys sample)) desc_like_keys.

(** The [score] of a sample. *)
Definition sample_score (sample : list (string * json)) : Z :=
  (if has_id_like_key sample then 1 else 0)
  + (if has_desc_like_key sample then 1 else 0).

(** [str(v).strip() if v is not None else None] *)
Definition opt_str_strip (v : option json) : option string :=
  (fun x => strip (py_str x)) <$> v.

Definition image_url_of (im : json) : list string :=
  match im with
  | JStr s => [s]
  | JDict d =>
      match _get_first d ["url"; "src"; "caminho"; "path"] with
      | Some u => if json_truthy u then [py_str u] else []
      | None => []
      end
  | _ => []
  end.

(** The body of [for it in dict_items]: one item to one [Lot]. *)
Definition lot_of_item (auction_id : string) (it : list (string * json)) : Lot :=
  let lot_id := _get_first it ["lotId"; "loteId"; "id"; "lote"; "numeroLote";
                               "numLote"; "codigoLote"; "codigo"; "numero"] in
  let lot_id_s := match lot_id with Some v => py_str v | None => "unknown" end in
  let desc := _get_first it ["descricaoCurta"; "descricao"; "descricaoResumida";
                             "nome"; "titulo"; "title"] in
  let desc_s := match desc with
                | Some v => strip (py_str v)
                | None => "(sem descrição)"
                end in
  let brand := _get_first it ["marcaModelo"; "marca_modelo"; "marca"; "brand"] in
  let model := _get_first it ["modelo"; "model"] in
  let truthy v := match v with Some x => json_truthy x | None => false end in
  let str_of v := match v with Some x => py_str x | None => "None" end in
  let brand_model :=
    if truthy brand && truthy model
    then Some (strip (str_of brand ++ " " ++ str_of model))
    else if truthy brand then Some (strip (str_of brand))
    else if truthy model then Some (strip (str_of model))
    else None in
  let year := _get_first it ["ano"; "anoModelo"; "ano_modelo"; "anoFabricacao";
                             "ano_fabricacao"; "year"] in
  let year_i :=
    match year with
    | Some y =>
        if str_truthy (strip (py_str y)) then
          match re_search re_year_loose (py_str y) with
          | Some m => int_of_digits <$> group m 1
          | None => None
          end
        else None
    | None => None
    end in
  let situation := _get_first it ["situacao"; "status"; "tipo"; "categoria"] in
  let start_bid := _get_first it ["lanceInicial"; "valorInicial"; "valorMinimo";
                                  "precoInicial"; "startBid"] in
  let start_bid_f :=
    match start_bid with
    | Some (JBool b) => Some (float_of_Z (if b then 1 else 0))
    | Some (JInt z) => Some (float_of_Z z)
    | Some (JFloat f) => Some f
    | Some v => safe_float (Some (py_str v))
    | None => None
    end in
  let ends_at := _parse_dt (_get_first it ["dataEncerramento"; "encerramento";
                                           "fim"; "endsAt"]) in
  let lot_url := _get_first it ["url"; "link"; "detalheUrl"; "detailsUrl"] in
  let imgs_val := _get_first it ["imagens"; "images"; "fotos"; "fotosUrl"; "photos"] in
  let image_urls :=
    match imgs_val with
    | Some (JList ims) => List.flat_map image_url_of ims
    | _ => []
    end in
  MkLot auction_id lot_id_s (str_take 180 desc_s) brand_model year_i
    (opt_str_strip situation) start_bid_f ends_at (opt_str_strip lot_url)
    image_urls false None.

(** [dict_items = [x for x in items if isinstance(x, dict)]] *)
Definition dict_items (items : list json) : list (list (string * json)) :=
  List.flat_map (fun x => match x with JDict d => [d] | _ => [] end) items.

(** One turn of [for items in _iter_candidate_item_lists(obj)] up to the
    end of the inner loop: the records to append, or [None] when one of
    the three [continue] statements is taken. *)
Definition candidate_lots (auction_id : string) (items : list json)
  : option (list Lot) :=
  match items with
  | [] => None
  | _ =>
      match dict_items items with
      | [] => None
      | sample :: _ =>
          if (sample_score sample =? 0)%Z then None
          else Some (List.map (lot_of_item auction_id) (dict_items items))
      end
  end.

(** The loop of [extract_lots_from_json] with its accumulator [lots]. *)
Fixpoint extract_loop (auction_id : string) (candidates : list (list json))
    (lots : list Lot) : list Lot :=
  match candidates with
  | [] => lots
  | items :: rest =>
      match candidate_lots auction_id items with
      | None => extract_loop auction_id rest lots
      | Some new =>
          let lots' := (lots ++ new)%list in
          match lots' with
          | _ :: _ => lots'
          | [] => extract_loop auction_id rest lots'
          end
      end
  end.

Definition extract_lots_from_json (obj : json) (auction_id : string) : list Lot :=
  extract_loop auction_id (_iter_candidate_item_lists obj) [].

End api_json.

(* ===================================================================== *)
(** ** crawler.py: the JSON-first path *)
(* ===================================================================== *)

(** [{l.lot_id: l for l in lots}] then [list(uniq.values())]: a record
    whose id was seen before takes the place of the earlier one. *)
Fixpoint dict_put (uniq : list (string * Lot)) (l : Lot) : list (string * Lot) :=
  match uniq with
  | [] => [(lot_id l, l)]
  | (k, v) :: uniq' =>
      if String.eqb k (lot_id l) then (k, l) :: uniq'
      else (k, v) :: dict_put uniq' l
  end.

Definition dedup_by_id (lots : list Lot) : list Lot :=
  List.map snd (fold_left dict_put lots []).

(** Every entry of the id-keyed dictionary is filed under its own id. *)
Definition keyed_by_id (uniq : list (string * Lot)) : Prop :=
  forall k v, In (k, v) uniq -> k = lot_id v.

(** A line of the per-auction lot log. *)
Record log_line := MkLogLine {
  line_page : Z;
  line_lot : Lot;
  line_source : option string
}.

(** An entry of [json_traffic] as [_attach_network_logging] collects it. *)
Record traffic_entry := MkTraffic {
  entry_url : string;
  entry_status : Z;
  entry_content_type : string;
  entry_method : string;
  entry_request_headers : list (string * string);
  entry_post_data : option string;
  entry_json : option json
}.

(** What a request of [context.request] comes to: an exception, or a
    response with its status and its body decoded by [resp.json()]
    ([None] when decoding raises). *)
Inductive api_response :=
| RequestRaised
| Response (status : Z) (body : option json).

(** [resp.ok] *)
Definition response_ok (status : Z) : bool :=
  ((200 <=? status) && (status <=? 299))%Z.

(** What the crawler changes while it pages: the checkpoint and its
    file, the lot log, and the requests it has sent (page numbers, in
    order). *)
Record crawl_state := MkCrawlState {
  checkpoint : CrawlCheckpoint;
  checkpoint_on_disk : checkpoint_file;
  out_jsonl : list log_line;
  requested : list Z
}.

(** How one turn of the paging loop ends. *)
Inductive page_exit :=
| NextPage (st : crawl_state) (lots_all : list Lot)
| BreakLoop (st : crawl_state) (lots_all : list Lot)
| ReturnEmpty (st : crawl_state).

(** The state a turn leaves behind. *)
Definition exit_state (e : page_exit) : crawl_state :=
  match e with
  | NextPage st _ | BreakLoop st _ | ReturnEmpty st => st
  end.

Section crawler.
Context `{rt : Runtime}.

(** [paginate_url] and [paginate_payload] rest on [urllib.parse] and
    [json]; the loop only passes their results on. *)
Variable paginate_url : string -> Z -> string.
Variable paginate_payload : option string -> Z -> option string.
(** [self._respect(url)] *)
Variable respect : string -> bool.
(** [context.request.get] and [.post] by method, URL and body. *)
Variable request : string -> string -> option string -> api_response.

(** [json_traffic[-200:]] *)
Definition last_200 {A} (l : list A) : list A := skipn (length l - 200) l.

(** The choice of the best endpoint: the first entry with the most
    records. *)
Fixpoint select_best (auction_id : string) (traffic : list traffic_entry)
    (best : option traffic_entry) (best_lots : list Lot)
  : option traffic_entry * list Lot :=
  match traffic with
  | [] => (best, best_lots)
  | e :: traffic' =>
      match entry_json e with
      | None | Some JNull => select_best auction_id traffic' best best_lots
      | Some body =>
          let lots := extract_lots_from_json body auction_id in
          if (length best_lots <? length lots)%nat
          then select_best auction_id traffic' (Some e) lots
          else select_best auction_id traffic' best best_lots
      end
  end.

(** [for l in lots: jsonl_append(...)] *)
Definition append_lots (page : Z) (lots : list Lot) (st : crawl_state) : crawl_state :=
  MkCrawlState (checkpoint st) (checkpoint_on_disk st)
    (out_jsonl st ++ List.map (fun l => MkLogLine page l (Some "api")) lots)
    (requested st).

(** [self.checkpoint.mark_page_done(...)] then [self.checkpoint.save()] *)
Definition mark_and_save (auction_id : string) (page : Z) (st : crawl_state)
  : crawl_state :=
  let cp := mark_page_done (checkpoint st) auction_id page in
  MkCrawlState cp (save cp) (out_jsonl st) (requested st).

Definition note_request (page : Z) (st : crawl_state) : crawl_state :=
  MkCrawlState (checkpoint st) (checkpoint_on_disk st) (out_jsonl st)
    (requested st ++ [page]).

Section paging.
Variable auction_id : string.
Variable max_pages : option Z.
Variable total_pages : option Z.
Variable method : string.
Variable base_url : string.
Variable post_data : option string.

(** The URL and the body of the request for a page, by method. *)
Definition request_url (page_num : Z) : string :=
  if String.eqb method "GET" then paginate_url base_url page_num else base_url.

Definition request_data (page_num : Z) : option string :=
  if String.eqb method "GET" then None
  else
    let body_text := paginate_payload post_data page_num in
    Some (if opt_truthy body_text then default "{}" body_text else "{}").

Definition beyond_max_pages (page_num : Z) : bool :=
  match max_pages with
  | Some mp => (mp <? page_num)%Z
  | None => false
  end.

Definition supported_method : bool :=
  String.eqb method "GET" || String.eqb method "POST".

(** The body of [for page_num in range(2, target_pages + 1)]. *)
Definition page_turn (page_num : Z) (st : crawl_state) (lots_all : list Lot)
  : page_exit :=
  if beyond_max_pages page_num then BreakLoop st lots_all
  else if is_page_done (checkpoint st) auction_id page_num
  then NextPage st lots_all
  else if negb supported_method then BreakLoop st lots_all
  else if negb (respect (request_url page_num)) then BreakLoop st lots_all
  else
    let st := note_request page_num st in
    match request method (request_url page_num) (request_data page_num) with
    | RequestRaised => BreakLoop st lots_all
    | Response status body =>
        if (status =? 401)%Z || (status =? 403)%Z then ReturnEmpty st
        else if negb (response_ok status) then BreakLoop st lots_all
        else
          match body with
          | None => BreakLoop st lots_all
          | Some data =>
              let lots := extract_lots_from_json data auction_id in
              if match lots with [] => true | _ => false end
                 && bool_decide (total_pages = None)
              then BreakLoop st lots_all
              else
                let st := append_lots page_num lots st in
                NextPage (mark_and_save auction_id page_num st)
                  (lots_all ++ lots)%list
          end
    end.

(** The request for [page_num] is allowed and answered with a decodable
    body under an ok status. *)
Definition page_answered (page_num : Z) (data : json) : Prop :=
  beyond_max_pages page_num = false
  /\ supported_method = true
  /\ respect (request_url page_num) = true
  /\ exists status,
       request method (request_url page_num) (request_data page_num)
       = Response status (Some data)
       /\ response_ok status = true.

(** A page that the loop fetches and whose payload yields no record. *)
Definition fetched_empty (page_num : Z) (st : crawl_state) : Prop :=
  is_page_done (checkpoint st) auction_id page_num = false
  /\ exists data,
       page_answered page_num data
       /\ extract_lots_from_json data auction_id = [].

(** The loop over the pages still to visit, then the de-duplication
    after it. *)
Fixpoint page_loop (pages : list Z) (st : crawl_state) (lots_all : list Lot)
  : list Lot * crawl_state :=
  match pages with
  | [] => (dedup_by_id lots_all, st)
  | page_num :: pages' =>
      match page_turn page_num st lots_all with
      | NextPage st' lots_all' => page_loop pages' st' lots_all'
      | BreakLoop st' lots_all' => (dedup_by_id lots_all', st')
      | ReturnEmpty st' => ([], st')
      end
  end.
End paging.

(** [max_pages = min(max_pages or 2, 2)] *)
Definition dry_run_pages (max_pages : option Z) : Z :=
  Z.min (match max_pages with Some mp => if (mp =? 0)%Z then 2 else mp | None => 2 end) 2.

Definition _try_crawl_lots_via_json_api (auction_id : string)
    (json_traffic : list traffic_entry) (max_pages : option Z) (dry_run : bool)
    (st : crawl_state) : list Lot * crawl_state :=
  match json_traffic with
  | [] => ([], st)
  | _ =>
      match select_best auction_id (last_200 json_traffic) None [] with
      | (None, _) | (Some _, []) => ([], st)
      | (Some best, best_lots) =>
          let st :=
            if negb (is_page_done (checkpoint st) auction_id 1)
            then mark_and_save auction_id 1 (append_lots 1 best_lots st)
            else st in
          let total_pages := get_total_pages (default JNull (entry_json best)) in
          let max_pages := if dry_run then Some (dry_run_pages max_pages)
                           else max_pages in
          let target_pages :=
            match max_pages, total_pages with
            | Some mp, _ => mp
            | None, Some tp => tp
            | None, None => 50
            end in
          let method := upper (if str_truthy (entry_method best)
                               then entry_method best else "GET") in
          page_loop auction_id max_pages total_pages method (entry_url best)
            (entry_post_data best) (seqZ 2 (target_pages - 1)) st best_lots
      end
  end.
End crawler.

(* ===================================================================== *)
(** ** A runtime for the worked examples *)
(* ===================================================================== *)

(** Plain decimal numerals: an optional sign, digits, an optional
    fraction. *)
Definition all_digits (s : string) : bool :=
  str_truthy s && forallb is_digit (list_ascii_of_string s).

Fixpoint split_at_dot (s : string) : string * option string :=
  match s with
  | EmptyString => (EmptyString, None)
  | String c s' =>
      if Ascii.eqb c "." then (EmptyString, Some s')
      else let '(a, b) := split_at_dot s' in (String c a, b)
  end.

Definition decimal_float (s : string) : option pyfloat :=
  let '(neg, body) :=
    match s with
    | String "-" s' => (true, s')
    | String "+" s' => (false, s')
    | _ => (false, s)
    end in
  let sign (q : Q) := if neg then Qopp q else q in
  match split_at_dot body with
  | (ip, None) =>
      if all_digits ip then Some (FFinite (sign (inject_Z (int_of_digits ip))))
      else None
  | (ip, Some fp) =>
      if all_digits ip && all_digits fp
      then Some (FFinite (sign (Qred ((inject_Z (int_of_digits (ip ++ fp)))
                                       / inject_Z (10 ^ Z.of_nat (String.length fp))))))
      else None
  end.

(** The runtime of the examples below: floats are read from plain
    decimals, no date is recognised, a URL is joined to its base by
    juxtaposition.  The examples contain no float to print and no date. *)
Definition example_runtime : Runtime := {|
  float_str := fun _ => "nan";
  str_repr := fun s => "'" ++ s ++ "'";
  py_float := decimal_float;
  fromisoformat := fun _ => None;
  fromtimestamp := fun _ => None;
  dateparser_parse := fun _ => None;
  urljoin := fun base url => base ++ url
|}.

(** An endpoint with three pages whose second page is empty. *)
Definition example_paginate_url (base : string) (page_num : Z) : string :=
  base ++ "?page=" ++ pretty page_num.

Definition example_request (method url : string) (body : option string)
  : api_response :=
  if String.eqb url "https://leilao.example/api/lotes?page=2"
  then Response 200 (Some (JDict [("items", JList [])]))
  else if String.eqb url "https://leilao.example/api/lotes?page=3"
  then Response 200
         (Some (JDict [("items",
                        JList [JDict [("lote", JInt 9);
                                      ("descricao", JStr "Moto")]])]))
  else Response 404 None.

(** The crawl after page 1 of auction "a1" was saved. *)
Definition example_state : crawl_state :=
  let cp := mark_page_done fresh_checkpoint "a1" 1 in
  MkCrawlState cp (save cp) [] [].

(* ===================================================================== *)
(** ** The parsed markup (BeautifulSoup over lxml) *)
(* ===================================================================== *)

(** A parsed document is a forest of text and element nodes.  The
    functions of [parsers.py] are embedded from the point where
    [BeautifulSoup(html, "lxml")] has built it.  A [Text] is a string
    that [get_text] shows; comments and the contents of [script] and
    [style], which it skips, are not in the tree. *)
#[local] Unset Elimination Schemes.
Inductive node :=
| Text (s : string)
| Elem (tag : string) (attrs : list (string * string)) (children : list node).
#[local] Set Elimination Schemes.

(** An element as a selector sees it: its own tag, attributes and
    children, and the tags and attributes of its ancestors, nearest
    first. *)
Record element := MkElement {
  el_ancestors : list (string * list (string * string));
  el_tag : string;
  el_attrs : list (string * string);
  el_children : list node
}.

(** The elements at and below a node, in document order. *)
Fixpoint elements_of (ancestors : list (string * list (string * string)))
    (n : node) : list element :=
  match n with
  | Text _ => []
  | Elem tag attrs children =>
      MkElement ancestors tag attrs children
      :: List.flat_map (elements_of ((tag, attrs) :: ancestors)) children
  end.

(** The descendants of the document and of an element. *)
Definition soup_elements (soup : list node) : list element :=
  List.flat_map (elements_of []) soup.

Definition descendants (e : element) : list element :=
  List.flat_map (elements_of ((el_tag e, el_attrs e) :: el_ancestors e))
    (el_children e).

(** The text strings at and below a node, in document order. *)
Fixpoint strings_of (n : node) : list string :=
  match n with
  | Text s => [s]
  | Elem _ _ children => List.flat_map strings_of children
  end.

(** [tag.get_text(sep)] *)
Definition get_text (sep : string) (children : list node) : string :=
  str_join sep (List.flat_map strings_of children).

(** [tag.get(name)] *)
Fixpoint attr_get (attrs : list (string * string)) (name : string) : option string :=
  match attrs with
  | [] => None
  | (k, v) :: attrs' => if String.eqb k name then Some v else attr_get attrs' name
  end.

(** [s.split(sep)] on one separator character *)
Fixpoint split_on (sep : ascii) (s : string) : list string :=
  match s with
  | EmptyString => [EmptyString]
  | String c s' =>
      if Ascii.eqb c sep then EmptyString :: split_on sep s'
      else match split_on sep s' with
           | [] => [String c EmptyString]
           | w :: ws => String c w :: ws
           end
  end.

(** [s.split()]: the words between runs of whitespace *)
Definition class_tokens (s : string) : list string :=
  List.filter str_truthy
    (split_on " " (map_string (fun c => if py_isspace c then " "%char else c) s)).

(** A compound selector: an optional tag, classes, an optional id and
    attributes that must be present. *)
Record compound := MkCompound {
  sel_tag : option string;
  sel_classes : list string;
  sel_id : option string;
  sel_has_attrs : list string
}.

Definition matches_compound (c : compound) (tag : string)
    (attrs : list (string * string)) : bool :=
  match sel_tag c with Some t => String.eqb t tag | None => true end
  && forallb (fun cls => in_keys cls (class_tokens (default "" (attr_get attrs "class"))))
       (sel_classes c)
  && match sel_id c with
     | Some i => match attr_get attrs "id" with
                 | Some v => String.eqb v i
                 | None => false
                 end
     | None => true
     end
  && forallb (fun a => bool_decide (is_Some (attr_get attrs a))) (sel_has_attrs c).

(** The compounds left of the subject, from the right, each found in an
    ancestor above the one before. *)
Fixpoint matches_ancestors (cs : list compound)
    (ancestors : list (string * list (string * string))) : bool :=
  match cs with
  | [] => true
  | c :: cs' =>
      (fix find (ancs : list (string * list (string * string))) : bool :=
         match ancs with
         | [] => false
         | (tag, attrs) :: ancs' =>
             if matches_compound c tag attrs then matches_ancestors cs' ancs'
             else find ancs'
         end) ancestors
  end.

(** A complex selector is its compounds joined by descendant
    combinators, written here from the subject leftwards. *)
Definition matches_complex (cs : list compound) (e : element) : bool :=
  match cs with
  | [] => false
  | subject :: above =>
      matches_compound subject (el_tag e) (el_attrs e)
      && matches_ancestors above (el_ancestors e)
  end.

(** A selector is a comma-separated list of complex selectors. *)
Definition matches_selector (sel : list (list compound)) (e : element) : bool :=
  existsb (fun cs => matches_complex cs e) sel.

(** [soup.select(sel)], [tag.select(sel)] and [tag.select_one(sel)] *)
Definition soup_select (sel : list (list compound)) (soup : list node) : list element :=
  List.filter (matches_selector sel) (soup_elements soup).

Definition select (sel : list (list compound)) (e : element) : list element :=
  List.filter (matches_selector sel) (descendants e).

Definition select_one (sel : list (list compound)) (e : element) : option element :=
  head (select sel e).

Definition by_tag (t : string) : compound := MkCompound (Some t) [] None [].
Definition by_tag_classes (t : string) (cls : list string) : compound :=
  MkCompound (Some t) cls None [].

(** ["div, article"] *)
Definition sel_div_article : list (list compound) :=
  [[by_tag "div"]; [by_tag "article"]].
(** ["div.card.listaLotes"] *)
Definition sel_site_card : list (list compound) :=
  [[by_tag_classes "div" ["card"; "listaLotes"]]].
(** ["div.card-body b"] *)
Definition sel_header_b : list (list compound) :=
  [[by_tag "b"; by_tag_classes "div" ["card-body"]]].
(** ["div.card-body b span"] *)
Definition sel_header_spans : list (list compound) :=
  [[by_tag "span"; by_tag "b"; by_tag_classes "div" ["card-body"]]].
(** ["div.row div.col-12.text-center b"] *)
Definition sel_brand_model : list (list compound) :=
  [[by_tag "b"; by_tag_classes "div" ["col-12"; "text-center"];
    by_tag_classes "div" ["row"]]].
(** ["#valor_atual_lote_<id>"], for an id that is a CSS identifier *)
Definition sel_bid (lot_id : string) : list (list compound) :=
  [[MkCompound None [] (Some ("valor_atual_lote_" ++ lot_id)) []]].
(** ["img"], ["span[onclick]"], ["a"] *)
Definition sel_img : list (list compound) := [[by_tag "img"]].
Definition sel_clickable : list (list compound) :=
  [[MkCompound (Some "span") [] None ["onclick"]]].
Definition sel_a : list (list compound) := [[by_tag "a"]].

(* ===================================================================== *)
(** ** parsers.py *)
(* ===================================================================== *)

(** [_WS.sub(" ", s)]: every run of whitespace becomes one space. *)
Fixpoint collapse_ws (in_run : bool) (s : string) : string :=
  match s with
  | EmptyString => EmptyString
  | String c s' =>
      if py_isspace c
      then if in_run then collapse_ws true s' else String " " (collapse_ws true s')
      else String c (collapse_ws false s')
  end.

Definition norm_text (s : string) : string := collapse_ws false (strip s).

(** [s.strip("-")] *)
Fixpoint lstrip_char (x : ascii) (s : string) : string :=
  match s with
  | EmptyString => EmptyString
  | String c s' => if Ascii.eqb c x then lstrip_char x s' else s
  end.

Definition strip_char (x : ascii) (s : string) : string :=
  str_rev (lstrip_char x (str_rev (lstrip_char x s))).

(** [[:\-]] *)
Definition colon_dash : regex :=
  Chr (fun c => Ascii.eqb c ":" || Ascii.eqb c "-").

(** A letter class of two spellings under [re.IGNORECASE], the second an
    accented letter given by the bytes of its lower and upper case. *)
Definition letter_or (plain : ascii) (lower_bytes upper_bytes : string) : regex :=
  Alt (chr_i plain) (Alt (lit lower_bytes) (lit upper_bytes)).

(** [\b(19\d{2}|20\d{2})\b] *)
Definition re_year : regex :=
  cats [WordB;
        Group 1 (Alt (Cat (lit "19") (exactly 2 digit))
                     (Cat (lit "20") (exactly 2 digit)));
        WordB].

Definition parse_year (text : string) : option Z :=
  if negb (str_truthy text) then None
  else match re_search re_year text with
       | Some m => int_of_digits <$> group m 1
       | None => None
       end.

Section parsers.
Context `{rt : Runtime}.

Definition parse_datetime_loose (text : string) : option datetime :=
  if negb (str_truthy text) then None else dateparser_parse text.

(** The pattern of [_extract_kv] for a key [k].  The source builds it
    with an f-string, in which [{2,}] is a replacement field that prints
    the tuple [(2,)]: the second alternative of the last group is a
    whitespace character followed by the group ["2,"]. *)
Definition re_extract_kv (k : regex) : regex :=
  cats [WordB; k; WordB; spaces; opt colon_dash; spaces;
        Group 1 (plus_lazy dot);
        Group 2 (Alt Eos
                   (Alt (Cat space (Group 3 (lit "2,")))
                        (cats [WordB; Chr is_alpha; plus (Chr is_alpha); WordB;
                               spaces; colon_dash])))].

Fixpoint _extract_kv_keys (t : string) (keys : list regex) : option string :=
  match keys with
  | [] => None
  | k :: keys' =>
      match re_search (re_extract_kv k) t with
      | Some m => Some (norm_text (default "" (group m 1)))
      | None => _extract_kv_keys t keys'
      end
  end.

Definition _extract_kv (text : string) (keys : list regex) : option string :=
  _extract_kv_keys (norm_text text) keys.

(** The key lists of the callers: ["cidade", "munic[ií]pio", "local"],
    ["p[aá]tio", "patio"], ["organizador", "leiloeiro"]. *)
Definition keys_city : list regex :=
  [lit_i "cidade";
   cats [lit_i "munic"; letter_or "i" "í" "Í"; lit_i "pio"];
   lit_i "local"].
Definition keys_yard : list regex :=
  [cats [lit_i "p"; letter_or "a" "á" "Á"; lit_i "tio"]; lit_i "patio"].
Definition keys_organizer : list regex :=
  [lit_i "organizador"; lit_i "leiloeiro"].

(** [\b(leil[aã]o)\s*(n[ºo]\.?|n\b|n\s*o)?\s*[:\-]?\s*([0-9]{1,10}(?:\/[0-9]{2,4})?)\b] *)
Definition re_auction_number : regex :=
  cats [WordB;
        Group 1 (cats [lit_i "leil"; letter_or "a" "ã" "Ã"; lit_i "o"]);
        spaces;
        opt (Group 2 (Alt (cats [chr_i "n"; Alt (lit "º") (chr_i "o"); opt (chr ".")])
                        (Alt (Cat (chr_i "n") WordB)
                             (cats [chr_i "n"; spaces; chr_i "o"]))));
        spaces; opt colon_dash; spaces;
        Group 3 (Cat (repeat_range 1 10 digit)
                   (opt (Cat (chr "/") (repeat_range 2 4 digit))));
        WordB].

Definition _guess_auction_number (text : string) : option string :=
  match re_search re_auction_number (norm_text text) with
  | Some m => group m 3
  | None => None
  end.

Definition _guess_status (text : string) : option string :=
  let t := lower (norm_text text) in
  List.find (fun k => str_in k t)
    ["publicado"; "aberto"; "encerrado"; "finalizado"; "em andamento"].

(** [a or b] on optional strings *)
Definition str_or (a b : option string) : option string :=
  if opt_truthy a then a else b.

(** The labels of the closing time and the pattern built from one; the
    f-string prints [{2,}] as [(2,)] here too. *)
Definition ends_at_labels : list regex :=
  [lit_i "encerramento"; lit_i "encerra"; lit_i "data/hora"; lit_i "data e hora";
   cats [lit_i "t"; letter_or "e" "é" "É"; lit_i "rmino"]; lit_i "termino"].

Definition re_ends_at (label : regex) : regex :=
  cats [WordB; label; WordB; spaces; opt colon_dash; spaces;
        Group 1 (plus_lazy dot);
        Group 2 (Alt Eos (Cat space (Group 3 (lit "2,"))))].

(** The loop over the labels: [ends_at] is what the last label that
    matched parsed to, and the loop stops at the first that parses. *)
Fixpoint ends_at_loop (text : string) (labels : list regex)
    (ends_at : option datetime) : option datetime :=
  match labels with
  | [] => ends_at
  | label :: labels' =>
      match re_search (re_ends_at label) text with
      | Some m =>
          match parse_datetime_loose (default "" (group m 1)) with
          | Some d => Some d
          | None => ends_at_loop text labels' None
          end
      | None => ends_at_loop text labels' ends_at
      end
  end.

Definition parse_auction_details_from_html (html : list node) (auction : Auction)
  : Auction :=
  let text := norm_text (get_text " " html) in
  let number := str_or (auction_number auction) (_guess_auction_number text) in
  let city := str_or (auction_city auction) (_extract_kv text keys_city) in
  let yard := str_or (auction_yard auction) (_extract_kv text keys_yard) in
  let organizer := str_or (auction_organizer auction)
                     (_extract_kv text keys_organizer) in
  let status := str_or (auction_status auction) (_guess_status text) in
  let ends_at :=
    match auction_ends_at auction with
    | Some d => Some d
    | None => ends_at_loop text ends_at_labels None
    end in
  MkAuction (auction_auction_id auction) (auction_url auction)
    number city yard organizer status ends_at.
End parsers.

(** The lot label [\bLote\s*(N)\b], where the group [N] is
    [[0-9]+] followed by [[a-zA-Z0-9\-\.]*]. *)
Definition lot_number_tail : regex :=
  Star true (Chr (fun c => is_alpha c || is_digit c
                           || Ascii.eqb c "-" || Ascii.eqb c ".")).

Definition re_lote_num : regex :=
  cats [WordB; lit_i "Lote"; spaces;
        Group 1 (Cat (plus digit) lot_number_tail); WordB].

(** [\bLote\s*[:#-]?\s*(N)\b] with the same group [N] *)
Definition re_lote_num_loose : regex :=
  cats [WordB; lit_i "Lote"; spaces;
        opt (Chr (fun c => Ascii.eqb c ":" || Ascii.eqb c "#" || Ascii.eqb c "-"));
        spaces;
        Group 1 (Cat (plus digit) lot_number_tail); WordB].

(** [\blote\b] *)
Definition re_lote_word : regex := cats [WordB; lit_i "lote"; WordB].

(** [R\$\s*[0-9\.,]+] *)
Definition re_price : regex :=
  cats [lit "R$"; spaces;
        plus (Chr (fun c => is_digit c || Ascii.eqb c "." || Ascii.eqb c ","))].

(** [/lotes/detalhes/\d+] *)
Definition re_details_path : regex := Cat (lit "/lotes/detalhes/") (plus digit).

(** [\W+] *)
Definition re_non_word : regex := plus (Chr (fun c => negb (is_word c))).

(** [\s*\b<year>\b\s*$] *)
Definition re_trailing_year (year : Z) : regex :=
  cats [spaces; WordB; lit (pretty year); WordB; spaces; Eos].

(** [encerr] *)
Definition re_encerr : regex := lit_i "encerr".

(** [\b(encerramento|encerra)\b\s*[:\-]?\s*(.+)$] *)
Definition re_closing : regex :=
  cats [WordB; Group 1 (Alt (lit_i "encerramento") (lit_i "encerra")); WordB;
        spaces; opt colon_dash; spaces; Group 2 (plus dot); Eos].

(** [re.sub(r"\W+", "-", s[:60]).strip("-").lower() or "unknown"] *)
Definition slug_id (s : string) : string :=
  let slug := lower (strip_char "-" (re_sub re_non_word "-" (str_take 60 s))) in
  if str_truthy slug then slug else "unknown".

(** The words that name a situation in a structured card. *)
Definition situation_words : list string :=
  ["sem reserva"; "com reserva"; "sucata"; "recuperável"; "recuperavel";
   "circula"; "não circula"; "nao circula"].

(** The situation patterns of the heuristic scan, each with its source
    text, which is what the record keeps. *)
Definition situation_patterns : list (string * regex) :=
  [("sem reserva", lit_i "sem reserva");
   ("com reserva", lit_i "com reserva");
   ("sucata", lit_i "sucata");
   ("recuper[áa]vel", cats [lit_i "recuper"; letter_or "a" "á" "Á"; lit_i "vel"]);
   ("circula", lit_i "circula");
   ("n[aã]o circula", cats [lit_i "n"; letter_or "a" "ã" "Ã"; lit_i "o circula"])].

Definition element_text (e : element) : string := norm_text (get_text " " (el_children e)).

Section lot_cards.
Context `{rt : Runtime}.
Variable auction_id : string.
(** [base = page_url] *)
Variable base : string.

(** The body of [for card in site_cards]: one structured card to one
    record. *)
Definition site_card_lot (card : element) : Lot :=
  let card_text := element_text card in
  let card_id := strip (default "" (attr_get (el_attrs card) "id")) in
  let lot_id : option string := if str_truthy card_id then Some card_id else None in
  let header_b := select_one sel_header_b card in
  let header_text := element_text <$> header_b in
  let header_or_card := if opt_truthy header_text then default "" header_text
                        else card_text in
  let m_lote_num := re_search re_lote_num header_or_card in
  let spans := select sel_header_spans card in
  let situation :=
    match spans with
    | _ :: second :: _ =>
        let s := element_text second in if str_truthy s then Some s else None
    | _ => None
    end in
  let situation :=
    if opt_truthy situation then situation
    else List.find (fun k => str_in k (lower card_text)) situation_words in
  let brand_model_full :=
    List.find (fun t => str_truthy t && negb (bool_decide (is_Some (re_search re_lote_word t))))
      (List.map element_text (select sel_brand_model card)) in
  let year := or_else (parse_year (default "" brand_model_full))
                      (parse_year card_text) in
  let brand_model :=
    match brand_model_full with
    | Some full =>
        if str_truthy full then
          match year with
          | Some y =>
              let cut := strip (re_sub (re_trailing_year y) "" full) in
              Some (if str_truthy cut then cut else full)
          | None => Some full
          end
        else None
    | None => None
    end in
  let start_bid :=
    match lot_id with
    | Some lid =>
        match select_one (sel_bid lid) card with
        | Some bid_el => safe_float (Some (element_text bid_el))
        | None => None
        end
    | None => None
    end in
  let start_bid :=
    match start_bid with
    | Some b => Some b
    | None =>
        match re_search re_price card_text with
        | Some m2 => safe_float (Some (group0 card_text m2))
        | None => None
        end
    end in
  let imgs :=
    List.flat_map
      (fun img =>
         let src := strip (default "" (attr_get (el_attrs img) "src")) in
         if str_truthy src then [urljoin base src] else [])
      (select sel_img card) in
  let onclick :=
    match select_one sel_clickable card with
    | Some clickable => attr_get (el_attrs clickable) "onclick"
    | None => None
    end in
  let lot_url :=
    match onclick with
    | Some oc =>
        if str_truthy oc then
          match re_search re_details_path oc with
          | Some m => Some (urljoin base (group0 oc m))
          | None => None
          end
        else None
    | None => None
    end in
  let requires_login :=
    existsb
      (fun a =>
         let label := lower (element_text a) in
         let href := lower (default "" (attr_get (el_attrs a) "href")) in
         str_in "login obrigat" label || str_in "/ssc/login/login" href)
      (select sel_a card) in
  let lote_num := match m_lote_num with Some m => group m 1 | None => None end in
  let lot_id :=
    match lot_id, m_lote_num with
    | None, Some _ => lote_num
    | _, _ => lot_id
    end in
  let lot_id :=
    if opt_truthy lot_id then default "" lot_id else slug_id header_or_card in
  let description_short :=
    if opt_truthy header_text then default "" header_text
    else match m_lote_num with
         | Some _ => "Lote " ++ default "" lote_num
         | None => card_text
         end in
  MkLot auction_id lot_id (str_take 180 description_short) brand_model year
    situation start_bid None lot_url imgs requires_login (Some card_text).

(** The body of the fallback loop for a card whose text mentions
    "lote". *)
Definition scanned_card_lot (card : element) (text : string) : Lot :=
  let requires_login := str_in "login" (lower text) && str_in "obrig" (lower text) in
  let lot_id :=
    match re_search re_lote_num_loose text with
    | Some m => group m 1
    | None => None
    end in
  let lot_id := if opt_truthy lot_id then default "" lot_id else slug_id text in
  let year := parse_year text in
  let t_low := lower text in
  let situation :=
    fst <$> List.find
              (fun k => bool_decide (is_Some (re_search k.2 t_low)))
              situation_patterns in
  let start_bid :=
    match re_search re_price text with
    | Some m2 => safe_float (Some (group0 text m2))
    | None => None
    end in
  let ends_at :=
    match re_search re_closing text with
    | Some m_end => parse_datetime_loose (default "" (group m_end 2))
    | None => None
    end in
  let lines :=
    List.filter str_truthy
      (List.map norm_text (split_on "010" (get_text (String "010" "") (el_children card)))) in
  let brand_model :=
    List.find
      (fun ln =>
         negb (bool_decide (is_Some (re_search re_lote_word ln)))
         && negb (bool_decide (is_Some (re_search re_price ln)))
         && negb (bool_decide (is_Some (re_search re_encerr ln)))
         && (3 <=? String.length ln)%nat)
      (firstn 6 lines) in
  let imgs :=
    List.flat_map
      (fun img =>
         match attr_get (el_attrs img) "src" with
         | Some src => if str_truthy src then [urljoin base src] else []
         | None => []
         end)
      (select sel_img card) in
  let link :=
    first_some
      (fun a =>
         match attr_get (el_attrs a) "href" with
         | Some href =>
             if str_truthy href
                && (str_in "lote" (lower href)
                    || str_in "detal" (lower (get_text " " (el_children a))))
             then Some (urljoin base href) else None
         | None => None
         end)
      (select sel_a card) in
  MkLot auction_id lot_id
    (if (0 <? String.length text)%nat then str_take 180 text else "(sem descrição)")
    brand_model year situation start_bid ends_at link imgs requires_login (Some text).

(** The test at the head of both card loops: the card has text and it
    mentions "lote". *)
Definition mentions_lote (text : string) : bool :=
  str_truthy text && str_in "lote" (lower text).

(** The statements of the outer loop's body after its [continue]: the
    structured cards when there are any, else the scan of every [div]
    and [article]; both end in a [return]. *)
Definition lots_of_page (html : list node) : list Lot :=
  let site_cards := soup_select sel_site_card html in
  match site_cards with
  | _ :: _ => dedup_by_id (List.map site_card_lot site_cards)
  | [] =>
      dedup_by_id
        (List.flat_map
           (fun card =>
              let text := element_text card in
              if mentions_lote text then [scanned_card_lot card text] else [])
           (soup_select sel_div_article html))
  end.

(** The outer [for card in cards]: a card that does not mention "lote"
    is skipped, the first that does runs the body and returns; when the
    loop runs out the function ends without a [return], which yields
    [None]. *)
Fixpoint outer_card_loop (html : list node) (cards : list element)
  : option (list Lot) :=
  match cards with
  | [] => None
  | card :: cards' =>
      if negb (mentions_lote (element_text card)) then outer_card_loop html cards'
      else Some (lots_of_page html)
  end.

Definition parse_lot_cards_from_html (html : list node) : option (list Lot) :=
  outer_card_loop html (soup_select sel_div_article html).

End lot_cards.

(* ===================================================================== *)
(** ** The documents of tests/test_issue_lot_collision.py *)
(* ===================================================================== *)

(** A line break and its indentation between two tags. *)
Definition nl : string := String "010" "            ".

(** [<div class='card listaLotes'> <div class='card-body'><b><span>label
    </span></b><p>price</p></div> </div>] *)
Definition collision_card (label price : string) : node :=
  Elem "div" [("class", "card listaLotes")]
    [Text nl;
     Elem "div" [("class", "card-body")]
       [Elem "b" [] [Elem "span" [] [Text label]];
        Elem "p" [] [Text price]];
     Text nl].

(** The page of a scenario as lxml builds it: both cards in the body. *)
Definition collision_page (second_label : string) : list node :=
  [Elem "html" []
     [Elem "body" []
        [collision_card "Lote 123" "R$ 10"; Text nl;
         collision_card second_label "R$ 20"; Text nl]]].

(** The text a structured card is labelled with: its header when it has
    one with text, else its whole text ([header_text or card_text]). *)
Definition card_label (card : element) : string :=
  let header_text := element_text <$> select_one sel_header_b card in
  if opt_truthy header_text then default "" header_text else element_text card.

(** The [div] and [article] elements whose text mentions "lote". *)
Definition lote_cards (html : list node) : list element :=
  List.filter (fun card => mentions_lote (element_text card))
    (soup_select sel_div_article html).

(* ===================================================================== *)
(** ** crawler.py: the first page of the HTML path *)
(* ===================================================================== *)

Section first_page.
Context `{rt : Runtime}.

(** The block under "Always process page 1" of
    [_crawl_auction_lots_playwright].  The [for l in lots] iterates what
    [parse_lot_cards_from_html] returned; over [None] it raises
    [TypeError], which is the result [None] here. *)
Definition process_first_page (auction_id page_url : string) (html : list node)
    (st : crawl_state) (lots_all : list Lot) : option (crawl_state * list Lot) :=
  if negb (is_page_done (checkpoint st) auction_id 1) then
    match parse_lot_cards_from_html auction_id page_url html with
    | None => None
    | Some lots =>
        let st :=
          MkCrawlState (checkpoint st) (checkpoint_on_disk st)
            (out_jsonl st ++ List.map (fun l => MkLogLine 1 l None) lots)
            (requested st) in
        Some (mark_and_save auction_id 1 st, (lots_all ++ lots)%list)
    end
  else Some (st, lots_all).
End first_page.

(** The id that a structured card without an [id] attribute takes from
    its label: the number after "Lote", else the slug of the label. *)
Definition label_lot_id (label : string) : string :=
  match re_search re_lote_num label with
  | Some m =>
      if opt_truthy (group m 1) then default "" (group m 1) else slug_id label
  | None => slug_id label
  end.

(** The id that the heuristic scan takes from the text of a card. *)
Definition scanned_lot_id (text : string) : string :=
  let lot_id := match re_search re_lote_num_loose text with
                | Some m => group m 1
                | None => None
                end in
  if opt_truthy lot_id then default "" lot_id else slug_id text.

(** The labels of the second card in the two scenarios, each with the id
    it must keep. *)
Definition suffixed_label (label id : string) : Prop :=
  (label = "Lote 123A" /\ id = "123A") \/ (label = "Lote 123-A" /\ id = "123-A").

(** A card of [collision_page] as an element: it sits in the body. *)
Definition collision_element (label price : string) : element :=
  MkElement [("body", []); ("html", [])] "div" [("class", "card listaLotes")]
    [Text nl;
     Elem "div" [("class", "card-body")]
       [Elem "b" [] [Elem "span" [] [Text label]];
        Elem "p" [] [Text price]];
     Text nl].

(* ===================================================================== *)
(** ** Definitions for the further properties *)
(* ===================================================================== *)

From Stdlib Require Import Qpower.

(** The last record of [lots] that carries the id [k]. *)
Definition last_with_id (k : string) (lots : list Lot) : option Lot :=
  List.find (fun l => String.eqb (lot_id l) k) (rev lots).

(** [uniq.get(k)] on the id-keyed dictionary. *)
Fixpoint lookup_id (uniq : list (string * Lot)) (k : string) : option Lot :=
  match uniq with
  | [] => None
  | (k', v) :: uniq' => if String.eqb k' k then Some v else lookup_id uniq' k
  end.




(** What a finished run of [retry_call] looks like from outside. *)
Definition retry_trace {T E : Type} (fn : nat -> T + E) (policy : RetryPolicy)
    (should_retry : E -> bool) (rnd : nat -> Q)
    (run : outcome T E * retry_world) : Prop :=
  let w := run.2 in
  Z.of_nat (calls w) <= Z.max 0 (max_attempts policy)
  /\ length (sleeps w) = Nat.pred (calls w)
  /\ (forall i, (i < Nat.pred (calls w))%nat -> fails_retryably fn should_retry i)
  /\ (forall i, (i < length (sleeps w))%nat ->
        sleeps w !! i = Some (backoff_delay policy (Z.of_nat i + 1) (rnd i)))
  /\ match run.1 with
     | Returned v => fn (Nat.pred (calls w)) = inl v /\ (1 <= calls w)%nat
     | Raised exc =>
         fn (Nat.pred (calls w)) = inr exc /\ (1 <= calls w)%nat
         /\ (Z.of_nat (calls w) = max_attempts policy \/ should_retry exc = false)
     | AssertionError => max_attempts policy <= 0 /\ calls w = 0%nat
     end.

Section crawler_terms.
Context `{rt : Runtime}.
Variable paginate_url : string -> Z -> string.
Variable paginate_payload : option string -> Z -> option string.
Variable respect : string -> bool.
Variable request : string -> string -> option string -> api_response.
Variable auction_id : string.
Variable max_pages : option Z.
Variable method : string.
Variable base_url : string.
Variable post_data : option string.

(** A page the loop may ask for: not checkpointed, within [max_pages],
    with a method the loop knows and a URL that robots.txt allows. *)
Definition page_pending (page_num : Z) (st : crawl_state) : Prop :=
  is_page_done (checkpoint st) auction_id page_num = false
  /\ beyond_max_pages max_pages page_num = false
  /\ supported_method method = true
  /\ respect (request_url paginate_url method base_url page_num) = true.

(** The request for a page is answered with status 401 or 403. *)
Definition auth_refused (page_num : Z) : Prop :=
  exists status body,
    request method (request_url paginate_url method base_url page_num)
      (request_data paginate_payload method post_data page_num)
    = Response status body
    /\ (status = 401 \/ status = 403).

(** The records that a captured response yields. *)
Definition entry_lots (e : traffic_entry) : list Lot :=
  match entry_json e with
  | Some body => extract_lots_from_json body auction_id
  | None => []
  end.
End crawler_terms.

(** An endpoint that answers the second page with status 403. *)
Definition refusing_request (method url : string) (body : option string)
  : api_response :=
  if String.eqb url "https://leilao.example/api/lotes?page=2"
  then Response 403 None
  else example_request method url body.

(** The captured first page of the example endpoint. *)
Definition example_traffic : list traffic_entry :=
  [MkTraffic "https://leilao.example/api/lotes" 200 "application/json" "get" [] None
     (Some (JDict [("items", JList [JDict [("lote", JInt 1);
                                           ("descricao", JStr "Carro")]]);
                   ("totalPages", JInt 3)]))].



(** A configuration without its year range, and one without its price
    ceiling. *)
Definition without_year_range (cfg : FiltersConfig) : FiltersConfig :=
  MkFiltersConfig (ignore_requires_login cfg) (ignore_sucata cfg)
    (tipo_veiculo cfg) (marcas_permitidas cfg) None None (valor_max cfg)
    (descricao_keywords_all cfg) (descricao_keywords_any cfg).

Definition without_valor_max (cfg : FiltersConfig) : FiltersConfig :=
  MkFiltersConfig (ignore_requires_login cfg) (ignore_sucata cfg)
    (tipo_veiculo cfg) (marcas_permitidas cfg) (ano_min cfg) (ano_max cfg) None
    (descricao_keywords_all cfg) (descricao_keywords_any cfg).



(* ===================================================================== *)
(** ** crawler.py: the requests path *)
(* ===================================================================== *)

(** The exceptions that the requests path tells apart: the three that
    [_should_retry] accepts, the [RuntimeError] of a URL that robots.txt
    disallows, the [TypeError] of iterating [None], and any other. *)
Inductive crawl_error :=
| Timeout
| ConnectionError
| HTTPError (status : Z)
| RuntimeError
| TypeError
| OtherError.

(** What one call of [self._session.get] comes to. *)
Inductive http_answer :=
| GetRaised (exc : crawl_error)
| GetResponse (status : Z) (text : string).

(** [_do] after [self.rate_limiter.wait()]: [raise_for_status] raises
    for a status from 400 to 599. *)
Definition _do (answer : http_answer) : string + crawl_error :=
  match answer with
  | GetRaised exc => inr exc
  | GetResponse status text =>
      if ((400 <=? status) && (status <? 600))%Z then inr (HTTPError status)
      else inl text
  end.

Definition _should_retry (exc : crawl_error) : bool :=
  match exc with
  | Timeout | ConnectionError | HTTPError _ => true
  | _ => false
  end.

Section requests_path.
Context `{rt : Runtime}.
(** [self._respect] *)
Variable respect : string -> bool.
(** [session_get url n] is what the [n]-th GET of [url] comes to
    (counted from 0). *)
Variable session_get : string -> nat -> http_answer.
Variable policy : RetryPolicy.
Variable rnd : nat -> Q.
(** [BeautifulSoup(html, "lxml")] *)
Variable soup : string -> list node.

Definition _requests_get (url : string) : outcome string crawl_error * retry_world :=
  if negb (respect url) then (Raised RuntimeError, initial_world)
  else retry_call (fun n => _do (session_get url n)) policy _should_retry rnd
         initial_world.

(** [enrich_auction_metadata]; [playwright] is the content of the page
    that [_enrich_auction_playwright] renders, [None] when it raises.
    The result comes with the number of GETs of the requests session. *)
Definition enrich_auction_metadata (playwright : option string) (auction : Auction)
  : Auction * nat :=
  if negb (respect (auction_url auction)) then (auction, 0%nat)
  else
    match playwright with
    | Some html => (parse_auction_details_from_html (soup html) auction, 0%nat)
    | None =>
        let got := _requests_get (auction_url auction) in
        match got.1 with
        | Returned html =>
            (parse_auction_details_from_html (soup html) auction, calls got.2)
        | _ => (auction, calls got.2)
        end
    end.

(** [_crawl_auction_lots_requests_fallback]; [existing] is what
    [_load_existing_lots] reads back from the lot log. *)
Definition _crawl_auction_lots_requests_fallback (aid url : string)
    (existing : list Lot) (st : crawl_state)
  : outcome (list Lot) crawl_error * crawl_state :=
  if is_page_done (checkpoint st) aid 1 then (Returned existing, st)
  else
    match (_requests_get url).1 with
    | Returned html =>
        match parse_lot_cards_from_html aid url (soup html) with
        | Some lots =>
            let st :=
              MkCrawlState (checkpoint st) (checkpoint_on_disk st)
                (out_jsonl st ++ List.map (fun l => MkLogLine 1 l None) lots)
                (requested st) in
            (Returned lots, mark_and_save aid 1 st)
        | None => (Raised TypeError, st)
        end
    | Raised exc => (Raised exc, st)
    | AssertionError => (AssertionError, st)
    end.
End requests_path.

(* ===================================================================== *)
(** ** api_json.py: header redaction *)
(* ===================================================================== *)

(** [_SENSITIVE_HEADERS] *)
Definition _SENSITIVE_HEADERS : list string :=
  ["authorization"; "cookie"; "set-cookie"; "x-api-key"].

(** [d[k] = v] on a dictionary of strings, in insertion order. *)
Fixpoint dict_set (d : list (string * string)) (k v : string)
  : list (string * string) :=
  match d with
  | [] => [(k, v)]
  | (k', v') :: d' =>
      if String.eqb k' k then (k', v) :: d' else (k', v') :: dict_set d' k v
  end.

(** The loop of [redact_headers] with its accumulator [redacted]. *)
Definition redact_loop (items : list (string * string))
    (redacted : list (string * string)) : list (string * string) :=
  fold_left
    (fun redacted kv =>
       if in_keys (lower kv.1) _SENSITIVE_HEADERS
       then dict_set redacted kv.1 "<redacted>"
       else dict_set redacted kv.1 kv.2)
    items redacted.

Definition redact_headers (headers : list (string * string))
  : list (string * string) :=
  redact_loop headers [].
(* ===================================================================== *)
(** * Properties *)
(* ===================================================================== *)

(** ** Checkpoint *)

Lemma list_to_set_sorted (v : gset Z) : list_to_set (sorted v) = v.
Proof.
  apply set_eq. intros x. unfold sorted.
  rewrite elem_of_list_to_set, merge_sort_Permutation. apply elem_of_elements.
Qed.

Lemma foldl_insert_items (l : list (string * list Z)) (m0 : gmap string (gset Z)) :
  NoDup (l.*1) ->
  foldl (fun m kv => <[kv.1 := list_to_set kv.2]> m) m0 l
  = list_to_map (prod_map id list_to_set <$> l) ∪ m0.
Proof.
  revert m0. induction l as [|[k v] l IH]; intros m0 Hnd; simpl.
  - by rewrite (left_id_L ∅ (∪)).
  - inversion Hnd as [|? ? Hk Hnd']; subst.
    rewrite IH by done. rewrite <- insert_union_l.
    symmetry. apply insert_union_r.
    apply not_elem_of_list_to_map_1.
    rewrite <- list_fmap_compose.
    intros Hin. apply Hk.
    apply list_elem_of_fmap in Hin as [[k' v'] [-> Hin]].
    apply list_elem_of_fmap. by exists (k', v').
Qed.

Lemma dict_of_items_saved (m : gmap string (gset Z)) :
  dict_of_items (map_to_list (sorted <$> m)) = m.
Proof.
  unfold dict_of_items. rewrite foldl_insert_items by apply NoDup_fst_map_to_list.
  rewrite (right_id_L ∅ (∪)).
  rewrite list_to_map_fmap, list_to_map_to_list, <- map_fmap_compose.
  rewrite <- (map_fmap_id m) at 2. apply map_fmap_ext.
  intros k v _. simpl. apply list_to_set_sorted.
Qed.

Lemma is_page_done_mark (cp : CrawlCheckpoint) e p e' p' :
  is_page_done (mark_page_done cp e' p') e p = true
  <-> is_page_done cp e p = true \/ (e, p) = (e', p').
Proof.
  unfold is_page_done, mark_page_done. simpl.
  rewrite !bool_decide_eq_true.
  destruct (decide (e' = e)) as [->|Hne].
  - rewrite lookup_insert_eq. simpl. rewrite elem_of_union, elem_of_singleton.
    split; intros [H|H]; auto; [right; congruence | right; congruence].
  - rewrite lookup_insert_ne by done.
    split; [auto | intros [H|H]; [done | congruence]].
Qed.

(** C4: [save] followed by [load] restores [pages_done] exactly, whatever
    the finite map of page sets is and whatever the loading object held
    before; marking a page a second time changes nothing; and a page
    reports done exactly when it was done before or has been marked since,
    so a pair never marked on a fresh checkpoint reports not-done. *)
Theorem checkpoint_roundtrip_idempotent_unmarked :
  (forall cp cp0 : CrawlCheckpoint, load (save cp) cp0 = cp)
  /\ (forall cp e p, mark_page_done (mark_page_done cp e p) e p = mark_page_done cp e p)
  /\ (forall ops cp e p,
        is_page_done (mark_all ops cp) e p = true
        <-> is_page_done cp e p = true \/ (e, p) ∈ ops)
  /\ (forall ops e p,
        is_page_done (mark_all ops fresh_checkpoint) e p = bool_decide ((e, p) ∈ ops)).
Proof.
  assert (Hhist : forall ops cp e p,
             is_page_done (mark_all ops cp) e p = true
             <-> is_page_done cp e p = true \/ (e, p) ∈ ops).
  { intros ops. unfold mark_all.
    induction ops as [|[e' p'] ops IH]; intros cp e p; simpl.
    - rewrite elem_of_nil. tauto.
    - rewrite IH, is_page_done_mark, elem_of_cons. tauto. }
  split; [|split; [|split]].
  - intros [m] cp0. unfold load, save. simpl. f_equal. apply dict_of_items_saved.
  - intros [m] e p. unfold mark_page_done. simpl. f_equal.
    rewrite lookup_insert_eq. simpl. rewrite insert_insert_eq. f_equal.
    rewrite <- (assoc_L (∪)). by rewrite (idemp_L (∪)).
  - exact Hhist.
  - intros ops e p.
    destruct (bool_decide ((e, p) ∈ ops)) eqn:Hd.
    + apply Hhist. right. by apply bool_decide_eq_true in Hd.
    + apply bool_decide_eq_false in Hd.
      destruct (is_page_done (mark_all ops fresh_checkpoint) e p) eqn:Hp; [|done].
      apply Hhist in Hp as [Hp|Hp]; [|done].
      unfold is_page_done, fresh_checkpoint in Hp. simpl in Hp.
      by rewrite lookup_empty in Hp.
Qed.

(** ** Retry *)

Section retry_facts.
Context {T E : Type}.
Variable fn : nat -> T + E.
Variable policy : RetryPolicy.
Variable should_retry : E -> bool.
Variable rnd : nat -> Q.

Local Abbreviation loop := (retry_loop fn policy should_retry rnd).
Local Abbreviation fails_retryably := (fails_retryably fn should_retry).


Lemma retry_loop_head (a : Z) (m : nat) last w :
  loop (seqZ a (Z.of_nat (S m))) last w
  = loop (a :: seqZ (Z.succ a) (Z.of_nat m)) last w.
Proof.
  replace (Z.of_nat (S m)) with (Z.succ (Z.of_nat m)) by lia.
  rewrite seqZ_cons by lia. by rewrite Z.pred_succ.
Qed.

(** A policy without attempts never invokes [fn]; the loop body does not
    run and the assertion after it fails. *)
Lemma retry_call_no_attempts w :
  max_attempts policy <= 0 ->
  retry_call fn policy should_retry rnd w = (AssertionError, w).
Proof.
  intros H. unfold retry_call.
  destruct (max_attempts policy) as [|p|p]; try lia; reflexivity.
Qed.

End retry_facts.


(** ** Rate limiter *)




(** ** Robots policy *)

(** C6: after a [load] that failed, in the fetch or in the parse, and
    likewise before any [load], [can_fetch] answers as the allow-all
    policy does: true for every URL. *)
Theorem robots_fail_open {Rules : Type} (rp_empty : Rules)
    (rp_parse : Rules -> string -> parse_result Rules)
    (rp_can_fetch : Rules -> string -> string -> bool) :
  (forall (self : RobotsPolicy Rules) fetched url,
      load_failed rp_parse fetched self = true ->
      can_fetch rp_can_fetch (robots_load rp_parse fetched self) url = allow_all url)
  /\ (forall base ua url,
      can_fetch rp_can_fetch (new_policy rp_empty base ua) url = allow_all url).
Proof.
  split.
  - intros self fetched url Hfail. unfold load_failed, robots_load in *.
    destruct fetched as [content|]; [|reflexivity].
    destruct (rp_parse (_rp self) content); [discriminate|reflexivity].
  - reflexivity.
Qed.

(** Even when the parsed rules would refuse every URL, a failed fetch
    leaves the policy open. *)
Lemma robots_fail_open_witness :
  can_fetch (fun (_ : unit) (_ _ : string) => false)
    (robots_load (fun rp _ => ParseOk rp) FetchRaised
       (MkRobots "https://leilao.detran.mg.gov.br/" "detran-leilao-crawler" tt true))
    "https://leilao.detran.mg.gov.br/lotes"
  = true.
Proof.
  destruct (robots_fail_open tt (fun rp _ => ParseOk rp)
              (fun (_ : unit) (_ _ : string) => false)) as [H _].
  apply (H (MkRobots "https://leilao.detran.mg.gov.br/" "detran-leilao-crawler" tt true)
           FetchRaised "https://leilao.detran.mg.gov.br/lotes").
  reflexivity.
Defined.

(** ** Filter engine *)







(** ** JSON record extractor *)

Section api_json_facts.
Context `{rt : Runtime}.

Lemma in_keys_elem (k : string) (keys : list string) :
  in_keys k keys = true <-> k ∈ keys.
Proof.
  unfold in_keys. rewrite existsb_exists. split.
  - intros (x & Hin & Heq). apply String.eqb_eq in Heq. subst.
    by apply list_elem_of_In.
  - intros Hin. exists k. split; [by apply list_elem_of_In | apply String.eqb_refl].
Qed.

Lemma sample_keys_elem (k : string) (sample : list (string * json)) :
  k ∈ sample_keys sample <-> exists k0 v, (k0, v) ∈ sample /\ lower k0 = k.
Proof.
  unfold sample_keys. rewrite list_elem_of_In, in_map_iff. split.
  - intros ([k0 v] & Heq & Hin). exists k0, v. split; [by apply list_elem_of_In | done].
  - intros (k0 & v & Hin & Heq). exists (k0, v). split; [done | by apply list_elem_of_In].
Qed.

Lemma has_id_like_key_spec (sample : list (string * json)) :
  has_id_like_key sample = true
  <-> exists k v, (k, v) ∈ sample /\ lower k ∈ id_like_keys.
Proof.
  unfold has_id_like_key. rewrite existsb_exists. split.
  - intros (a & Ha & Hin). apply in_keys_elem, sample_keys_elem in Hin.
    destruct Hin as (k & v & Hkv & <-). exists k, v. split; [done|].
    by apply list_elem_of_In.
  - intros (k & v & Hkv & Hin). exists (lower k). split; [by apply list_elem_of_In|].
    apply in_keys_elem, sample_keys_elem. by exists k, v.
Qed.

Lemma has_desc_like_key_spec (sample : list (string * json)) :
  has_desc_like_key sample = true
  <-> exists k v, (k, v) ∈ sample
        /\ (str_in "desc" (lower k) = true \/ lower k ∈ desc_like_keys).
Proof.
  unfold has_desc_like_key. rewrite orb_true_iff, !existsb_exists. split.
  - intros [(a & Ha & Hdesc)|(a & Ha & Hin)].
    + apply list_elem_of_In, sample_keys_elem in Ha.
      destruct Ha as (k & v & Hkv & <-). exists k, v. auto.
    + apply in_keys_elem, sample_keys_elem in Hin.
      destruct Hin as (k & v & Hkv & <-). exists k, v. split; [done|].
      right. by apply list_elem_of_In.
  - intros (k & v & Hkv & [Hdesc|Hin]).
    + left. exists (lower k). split; [|done].
      apply list_elem_of_In, sample_keys_elem. by exists k, v.
    + right. exists (lower k). split; [by apply list_elem_of_In|].
      apply in_keys_elem, sample_keys_elem. by exists k, v.
Qed.

Lemma sample_score_zero (sample : list (string * json)) :
  (sample_score sample =? 0)%Z = negb (has_id_like_key sample || has_desc_like_key sample).
Proof.
  unfold sample_score.
  by destruct (has_id_like_key sample), (has_desc_like_key sample).
Qed.

Lemma candidate_lots_nonempty (auction_id : string) items lots :
  candidate_lots auction_id items = Some lots ->
  lots = List.map (lot_of_item auction_id) (dict_items items) /\ lots <> [].
Proof.
  unfold candidate_lots. destruct items as [|x items]; [done|].
  destruct (dict_items (x :: items)) as [|sample ds]; [done|].
  destruct (sample_score sample =? 0)%Z; [done|].
  intros [= <-]. done.
Qed.

Lemma extract_loop_first (auction_id : string) (candidates : list (list json)) :
  extract_loop auction_id candidates []
  = default [] (first_some (candidate_lots auction_id) candidates).
Proof.
  induction candidates as [|items candidates IH]; [done|]. simpl.
  destruct (candidate_lots auction_id items) as [new|] eqn:Hc; simpl; [|exact IH].
  apply candidate_lots_nonempty in Hc as [_ Hne]. by destruct new.
Qed.

(** C2, as the code has it: a candidate list is converted exactly when
    its first object-shaped element has an id-like key or a
    description-like key (a key that contains "desc", or one of the
    listed aliases), compared in lower case; then every object-shaped
    item gives one record, and [extract_lots_from_json] returns the
    records of the first such candidate.  A candidate whose first object
    has neither kind of key gives nothing. *)
Theorem candidate_accepted_on_either_key (auction_id : string) :
  (forall items,
      is_Some (candidate_lots auction_id items)
      <-> exists sample others,
            dict_items items = sample :: others
            /\ (has_id_like_key sample = true \/ has_desc_like_key sample = true))
  /\ (forall items lots,
        candidate_lots auction_id items = Some lots ->
        lots = List.map (lot_of_item auction_id) (dict_items items) /\ lots <> [])
  /\ (forall obj,
        extract_lots_from_json obj auction_id
        = default [] (first_some (candidate_lots auction_id)
                        (_iter_candidate_item_lists obj)))
  /\ (forall sample,
        has_id_like_key sample = true
        <-> exists k v, (k, v) ∈ sample /\ lower k ∈ id_like_keys)
  /\ (forall sample,
        has_desc_like_key sample = true
        <-> exists k v, (k, v) ∈ sample
              /\ (str_in "desc" (lower k) = true \/ lower k ∈ desc_like_keys)).
Proof.
  split; [|split; [|split; [|split]]].
  - intros items. unfold candidate_lots. destruct items as [|x items].
    { split; [by intros [? ?] | by intros (? & ? & ? & _)]. }
    destruct (dict_items (x :: items)) as [|sample ds].
    { split; [by intros [? ?] | by intros (? & ? & ? & _)]. }
    rewrite sample_score_zero.
    destruct (has_id_like_key sample || has_desc_like_key sample) eqn:Hk; simpl.
    + split; [|by eexists]. intros _. exists sample, ds. split; [done|].
      by apply orb_true_iff.
    + split; [by intros [? ?]|]. intros (s' & o' & [= <- <-] & Hor).
      apply orb_true_iff in Hor. congruence.
  - apply candidate_lots_nonempty.
  - intros obj. apply extract_loop_first.
  - apply has_id_like_key_spec.
  - apply has_desc_like_key_spec.
Qed.
End api_json_facts.

(** The list [[{"id": 7}]]: its only object has an id-like key and no
    description-like key, and it is converted. *)
Lemma candidate_accepted_on_either_key_witness :
  is_Some (@candidate_lots example_runtime "a1" [JDict [("id", JInt 7)]]).
Proof.
  destruct (@candidate_accepted_on_either_key example_runtime "a1") as [H _].
  apply H. exists [("id", JInt 7)], []. split; [reflexivity|]. left. reflexivity.
Defined.

(** C2 as stated fails: one object with an id-like key and no
    description-like key yields a record, and so does one with a
    description-like key and no id-like key. *)
Lemma id_key_alone_yields_record :
  has_id_like_key [("id", JInt 7)] = true
  /\ has_desc_like_key [("id", JInt 7)] = false
  /\ @extract_lots_from_json example_runtime (JList [JDict [("id", JInt 7)]]) "a1"
     = [MkLot "a1" "7" "(sem descrição)" None None None None None None [] false None]
  /\ has_id_like_key [("descricao", JStr "Carro")] = false
  /\ has_desc_like_key [("descricao", JStr "Carro")] = true
  /\ @extract_lots_from_json example_runtime
       (JList [JDict [("descricao", JStr "Carro")]]) "a1"
     = [MkLot "a1" "unknown" "Carro" None None None None None None [] false None].
Proof. repeat split; vm_compute; reflexivity. Qed.

(** ** JSON-first pagination *)

Section crawler_facts.
Context `{rt : Runtime}.
Variable paginate_url : string -> Z -> string.
Variable paginate_payload : option string -> Z -> option string.
Variable respect : string -> bool.
Variable request : string -> string -> option string -> api_response.
Variable auction_id : string.
Variable max_pages : option Z.
Variable total_pages : option Z.
Variable method : string.
Variable base_url : string.
Variable post_data : option string.

Local Abbreviation turn :=
  (page_turn paginate_url paginate_payload respect request auction_id max_pages
     total_pages method base_url post_data).
Local Abbreviation loop :=
  (page_loop paginate_url paginate_payload respect request auction_id max_pages
     total_pages method base_url post_data).
Local Abbreviation answered :=
  (page_answered paginate_url paginate_payload respect request max_pages method
     base_url post_data).
Local Abbreviation empty_page :=
  (fetched_empty paginate_url paginate_payload respect request auction_id
     max_pages method base_url post_data).




Lemma is_page_done_mark_and_save (page p : Z) st :
  is_page_done (checkpoint (mark_and_save auction_id page st)) auction_id p = true
  <-> is_page_done (checkpoint st) auction_id p = true \/ p = page.
Proof.
  unfold mark_and_save. simpl. rewrite is_page_done_mark.
  split; (intros [H|H]; [by left | right; congruence]).
Qed.

(** Pages marked done stay so through a turn and through the loop. *)
Lemma page_turn_keeps_done (page : Z) st lots_all p :
  is_page_done (checkpoint st) auction_id p = true ->
  is_page_done (checkpoint (exit_state (turn page st lots_all))) auction_id p = true.
Proof.
  intros Hp. unfold page_turn.
  destruct (beyond_max_pages max_pages page); [done|].
  destruct (is_page_done (checkpoint st) auction_id page); [done|].
  destruct (negb (supported_method method)); [done|].
  destruct (negb (respect _)); [done|].
  destruct (request _ _ _) as [|status body]; [done|].
  destruct ((status =? 401)%Z || (status =? 403)%Z); [done|].
  destruct (negb (response_ok status)); [done|].
  destruct body as [data|]; [|done].
  destruct (_ && _); [done|].
  cbn [exit_state]. apply is_page_done_mark_and_save. by left.
Qed.

Lemma page_loop_keeps_done (pages : list Z) : forall st lots_all p,
  is_page_done (checkpoint st) auction_id p = true ->
  is_page_done (checkpoint (loop pages st lots_all).2) auction_id p = true.
Proof.
  induction pages as [|page pages IH]; intros st lots_all p Hp; [done|].
  simpl. pose proof (page_turn_keeps_done page st lots_all p Hp) as Hturn.
  destruct (turn page st lots_all); simpl in *; [by apply IH | done | done].
Qed.


(** With a best endpoint, [_try_crawl_lots_via_json_api] saves page 1
    when it is not checkpointed and then runs the paging loop over
    [range(2, target_pages + 1)], with the total page count read from the
    payload of that endpoint. *)
Lemma try_crawl_runs_page_loop (json_traffic : list traffic_entry) (pages_limit : option Z) (dry_run : bool)
    (st : crawl_state) (best : traffic_entry) (best_lots : list Lot) :
  json_traffic <> [] ->
  select_best auction_id (last_200 json_traffic) None [] = (Some best, best_lots) ->
  best_lots <> [] ->
  _try_crawl_lots_via_json_api paginate_url paginate_payload respect request
    auction_id json_traffic pages_limit dry_run st
  = let st1 := if negb (is_page_done (checkpoint st) auction_id 1)
               then mark_and_save auction_id 1 (append_lots 1 best_lots st)
               else st in
    let total := get_total_pages (default JNull (entry_json best)) in
    let limit := if dry_run then Some (dry_run_pages pages_limit) else pages_limit in
    let target_pages := match limit, total with
                        | Some mp, _ => mp
                        | None, Some tp => tp
                        | None, None => 50
                        end in
    page_loop paginate_url paginate_payload respect request auction_id limit total
      (upper (if str_truthy (entry_method best) then entry_method best else "GET"))
      (entry_url best) (entry_post_data best) (seqZ 2 (target_pages - 1)) st1
      best_lots.
Proof.
  intros Htraffic Hbest Hlots. unfold _try_crawl_lots_via_json_api.
  destruct json_traffic as [|e traffic]; [done|]. rewrite Hbest.
  by destruct best_lots.
Qed.
End crawler_facts.


(** ** Auction details *)

Lemma str_or_left (a b : option string) : opt_truthy a = true -> str_or a b = a.
Proof. unfold str_or. by intros ->. Qed.

Lemma str_or_right (a b : option string) : opt_truthy a = false -> str_or a b = b.
Proof. unfold str_or. by intros ->. Qed.

(** C5, as the code has it: [auction_id] and [url] are always
    unchanged; a text field that holds a non-empty string and an
    [ends_at] that is not [None] are carried over exactly; a text field
    that is [None] or the empty string takes whatever the parse gives
    (possibly [None]), and an absent [ends_at] takes the first closing
    time that parses. *)
Theorem parse_auction_details_fills_absent `{rt : Runtime}
    (html : list node) (a : Auction) :
  let r := parse_auction_details_from_html html a in
  let text := norm_text (get_text " " html) in
  auction_auction_id r = auction_auction_id a
  /\ auction_url r = auction_url a
  /\ (opt_truthy (auction_number a) = true -> auction_number r = auction_number a)
  /\ (opt_truthy (auction_city a) = true -> auction_city r = auction_city a)
  /\ (opt_truthy (auction_yard a) = true -> auction_yard r = auction_yard a)
  /\ (opt_truthy (auction_organizer a) = true ->
      auction_organizer r = auction_organizer a)
  /\ (opt_truthy (auction_status a) = true -> auction_status r = auction_status a)
  /\ (is_Some (auction_ends_at a) -> auction_ends_at r = auction_ends_at a)
  /\ (opt_truthy (auction_number a) = false ->
      auction_number r = _guess_auction_number text)
  /\ (opt_truthy (auction_city a) = false ->
      auction_city r = _extract_kv text keys_city)
  /\ (opt_truthy (auction_yard a) = false ->
      auction_yard r = _extract_kv text keys_yard)
  /\ (opt_truthy (auction_organizer a) = false ->
      auction_organizer r = _extract_kv text keys_organizer)
  /\ (opt_truthy (auction_status a) = false -> auction_status r = _guess_status text)
  /\ (auction_ends_at a = None ->
      auction_ends_at r = ends_at_loop text ends_at_labels None).
Proof.
  cbn zeta. unfold parse_auction_details_from_html. cbn [auction_auction_id
    auction_url auction_number auction_city auction_yard auction_organizer
    auction_status auction_ends_at].
  repeat split; try (by apply str_or_left); try (by apply str_or_right).
  - by intros [d ->].
  - by intros ->.
Qed.

(** An auction found with number "2842/2026" and no status, enriched
    from a page that reads "Leilão nº 7 aberto": the number stays, the
    status is filled. *)
Lemma parse_auction_details_fills_absent_witness :
  let a := MkAuction "a1" "https://leilao.example/1" (Some "2842/2026")
             None None None None None in
  let r := @parse_auction_details_from_html example_runtime
             [Elem "p" [] [Text "Leilão nº 7 aberto"]] a in
  auction_number r = Some "2842/2026" /\ auction_status r = Some "aberto".
Proof.
  cbn zeta.
  pose proof (@parse_auction_details_fills_absent example_runtime
                [Elem "p" [] [Text "Leilão nº 7 aberto"]]
                (MkAuction "a1" "https://leilao.example/1" (Some "2842/2026")
                   None None None None None)) as H.
  cbn zeta in H.
  destruct H as (_ & _ & Hnum & _ & _ & _ & _ & _ & _ & _ & _ & _ & Hst & _).
  split; [apply Hnum; reflexivity|].
  rewrite Hst by reflexivity. vm_compute. reflexivity.
Defined.

(** C5 as stated fails on a field that is set to the empty string: the
    status [""] is replaced by the parsed "aberto", and the city [""]
    becomes [None] when the page names no city. *)
Lemma empty_field_is_not_preserved :
  auction_status
    (@parse_auction_details_from_html example_runtime
       [Elem "p" [] [Text "Leilão aberto"]]
       (MkAuction "a1" "https://leilao.example/1" None (Some "") None None
          (Some "") None))
  = Some "aberto"
  /\ auction_city
       (@parse_auction_details_from_html example_runtime
          [Elem "p" [] [Text "Leilão aberto"]]
          (MkAuction "a1" "https://leilao.example/1" None (Some "") None None
             (Some "") None))
     = None.
Proof. split; vm_compute; reflexivity. Qed.

(** ** Text containment *)

Lemma str_app_cons (x : ascii) (a b : string) : String x a ++ b = String x (a ++ b).
Proof. reflexivity. Qed.


Lemma prefix_app_iff (w t : string) :
  String.prefix w t = true <-> exists q, t = w ++ q.
Proof.
  revert t. induction w as [|a w IH]; intros t.
  - split; [intros _; by exists t | intros _; by destruct t].
  - destruct t as [|b t]; simpl; [split; [done | by intros [q ?]]|].
    destruct (Ascii.ascii_dec a b) as [->|Hne].
    + rewrite IH. split; intros [q Hq]; exists q.
      * by rewrite Hq.
      * rewrite str_app_cons in Hq. by injection Hq.
    + split; [done|]. intros [q Hq]. rewrite str_app_cons in Hq.
      injection Hq as ? ?. congruence.
Qed.

Lemma str_app_assoc (a b c : string) : (a ++ b) ++ c = a ++ b ++ c.
Proof. induction a as [|x a IH]; [done|]. rewrite !str_app_cons. by f_equal. Qed.

Lemma str_app_nil_r (a : string) : a ++ "" = a.
Proof. induction a as [|x a IH]; [done|]. rewrite !str_app_cons. by f_equal. Qed.

(** [str_in w t] holds exactly when [t] reads [p ++ w ++ q]. *)
Lemma str_in_iff (w t : string) :
  str_in w t = true <-> exists p q, t = p ++ w ++ q.
Proof.
  induction t as [|c t IH]; cbn [str_in].
  - rewrite orb_false_r, prefix_app_iff. split.
    + intros [q Hq]. by exists "", q.
    + intros (p & q & Hpq). destruct p; [by exists q|discriminate].
  - rewrite orb_true_iff, prefix_app_iff, IH. split.
    + intros [[q Hq]|(p & q & Hpq)]; [by exists "", q|].
      exists (String c p), q. by rewrite str_app_cons, Hpq.
    + intros (p & q & Hpq). destruct p as [|c' p].
      * left. by exists q.
      * right. rewrite str_app_cons in Hpq. injection Hpq as -> ->. by exists p, q.
Qed.

Lemma str_in_app_l (w a b : string) : str_in w a = true -> str_in w (a ++ b) = true.
Proof.
  rewrite !str_in_iff. intros (p & q & ->). exists p, (q ++ b).
  by rewrite !str_app_assoc.
Qed.

Lemma str_in_app_r (w a b : string) : str_in w b = true -> str_in w (a ++ b) = true.
Proof.
  rewrite !str_in_iff. intros (p & q & ->). exists (a ++ p), q.
  by rewrite !str_app_assoc.
Qed.

Lemma map_string_app (f : ascii -> ascii) (a b : string) :
  map_string f (a ++ b) = map_string f a ++ map_string f b.
Proof.
  induction a as [|x a IH]; [done|].
  rewrite str_app_cons. cbn [map_string]. by rewrite IH, str_app_cons.
Qed.

(** The strings as lists of characters. *)
Lemma list_ascii_app (a b : string) :
  list_ascii_of_string (a ++ b)
  = (list_ascii_of_string a ++ list_ascii_of_string b)%list.
Proof.
  induction a as [|x a IH]; [done|].
  rewrite str_app_cons. cbn [list_ascii_of_string]. by rewrite IH.
Qed.

Lemma string_of_list_app (l1 l2 : list ascii) :
  string_of_list_ascii (l1 ++ l2)
  = string_of_list_ascii l1 ++ string_of_list_ascii l2.
Proof.
  induction l1 as [|x l1 IH]; [done|].
  cbn [app string_of_list_ascii]. by rewrite IH, str_app_cons.
Qed.

Lemma str_rev_app (a b : string) : str_rev (a ++ b) = str_rev b ++ str_rev a.
Proof.
  unfold str_rev. by rewrite list_ascii_app, rev_app_distr, string_of_list_app.
Qed.

Lemma str_rev_involutive (a : string) : str_rev (str_rev a) = a.
Proof.
  unfold str_rev.
  by rewrite list_ascii_of_string_of_list_ascii, rev_involutive,
    string_of_list_ascii_of_string.
Qed.

Lemma str_in_rev (w t : string) : str_in (str_rev w) (str_rev t) = str_in w t.
Proof.
  apply eq_true_iff_eq. rewrite !str_in_iff. split.
  - intros (p & q & Hpq). exists (str_rev q), (str_rev p).
    apply (f_equal str_rev) in Hpq.
    rewrite !str_rev_app, !str_rev_involutive in Hpq. by rewrite Hpq, str_app_assoc.
  - intros (p & q & ->). exists (str_rev q), (str_rev p).
    by rewrite !str_rev_app, str_app_assoc.
Qed.

Lemma prefix_solid_at_space (w : string) (c : ascii) (t : string) :
  starts_solid w -> py_isspace c = true -> String.prefix w (String c t) = false.
Proof.
  destruct w as [|a w]; [done|]. simpl. intros Ha Hc.
  destruct (Ascii.ascii_dec a c) as [->|]; [congruence | done].
Qed.

Lemma str_in_lstrip (w t : string) :
  starts_solid w -> str_in w (lstrip t) = str_in w t.
Proof.
  intros Hw. induction t as [|c t IH]; [done|]. cbn [lstrip].
  destruct (py_isspace c) eqn:Hc; [|done].
  rewrite IH. cbn [str_in]. by rewrite prefix_solid_at_space.
Qed.

Lemma prefix_nil (t : string) : String.prefix "" t = true.
Proof. by destruct t. Qed.

Lemma prefix_cons (a : ascii) (w : string) (c : ascii) (t : string) :
  String.prefix (String a w) (String c t)
  = if Ascii.eqb a c then String.prefix w t else false.
Proof.
  simpl. destruct (Ascii.ascii_dec a c) as [->|Hne].
  - by rewrite Ascii.eqb_refl.
  - apply Ascii.eqb_neq in Hne. by rewrite Hne.
Qed.

Lemma space_is_space : py_isspace " " = true.
Proof. reflexivity. Qed.

(** A needle without whitespace reads the same prefix before and after
    the runs of whitespace are collapsed. *)
Lemma prefix_collapse_ws (w : string) : forall t,
  all_solid w = true ->
  String.prefix w (collapse_ws false t) = String.prefix w t.
Proof.
  induction w as [|a w IH]; intros t Hw.
  - by rewrite !prefix_nil.
  - cbn [all_solid] in Hw. apply andb_true_iff in Hw as [Ha Hw].
    apply negb_true_iff in Ha.
    destruct t as [|c t]; [done|]. cbn [collapse_ws].
    destruct (py_isspace c) eqn:Hc.
    + rewrite !prefix_cons.
      destruct (Ascii.eqb a " ") eqn:E1.
      { apply Ascii.eqb_eq in E1. subst. by rewrite space_is_space in Ha. }
      destruct (Ascii.eqb a c) eqn:E2; [|done].
      apply Ascii.eqb_eq in E2. subst. congruence.
    + rewrite !prefix_cons. by rewrite IH.
Qed.

Lemma all_solid_starts (w : string) :
  str_truthy w = true -> all_solid w = true -> starts_solid w.
Proof.
  destruct w as [|a w]; [done|]. intros _ Hw. cbn [all_solid] in Hw.
  apply andb_true_iff in Hw as [Ha _]. by apply negb_true_iff in Ha.
Qed.

Lemma str_in_collapse_ws (w : string) (t : string) : forall b,
  str_truthy w = true -> all_solid w = true ->
  str_in w (collapse_ws b t) = str_in w t.
Proof.
  intros b Hne Hw. pose proof (all_solid_starts w Hne Hw) as Hs.
  revert b. induction t as [|c t IH]; intros b; [done|].
  cbn [collapse_ws]. destruct (py_isspace c) eqn:Hc.
  - cbn [str_in]. rewrite (prefix_solid_at_space w c t Hs Hc). cbn [orb].
    destruct b; [apply IH|].
    cbn [str_in]. rewrite (prefix_solid_at_space w " " _ Hs space_is_space).
    apply IH.
  - cbn [str_in]. rewrite IH. f_equal.
    pose proof (prefix_collapse_ws w (String c t) Hw) as Hp.
    cbn [collapse_ws] in Hp. by rewrite Hc in Hp.
Qed.

(** Normalising a text neither hides nor reveals a needle without
    whitespace. *)
Lemma str_in_norm_text (w t : string) :
  str_truthy w = true -> all_solid w = true -> starts_solid (str_rev w) ->
  str_in w (norm_text t) = str_in w t.
Proof.
  intros Hne Hw Hrev. pose proof (all_solid_starts w Hne Hw) as Hs.
  unfold norm_text, strip, rstrip.
  rewrite str_in_collapse_ws by done.
  rewrite <- (str_rev_involutive w) at 1. rewrite str_in_rev.
  rewrite str_in_lstrip by done. rewrite str_in_rev.
  by apply str_in_lstrip.
Qed.

(** Lower-casing commutes with normalising. *)
Lemma isspace_lower_char (c : ascii) : py_isspace (lower_char c) = py_isspace c.
Proof. by destruct c as [[] [] [] [] [] [] [] []]. Qed.

Lemma lower_collapse_ws (b : bool) (t : string) :
  lower (collapse_ws b t) = collapse_ws b (lower t).
Proof.
  unfold lower. revert b. induction t as [|c t IH]; intros b; [done|].
  cbn [collapse_ws map_string]. rewrite isspace_lower_char.
  destruct (py_isspace c); [destruct b|]; cbn [map_string]; by rewrite ?IH.
Qed.

Lemma lower_lstrip (t : string) : lower (lstrip t) = lstrip (lower t).
Proof.
  unfold lower. induction t as [|c t IH]; [done|].
  cbn [lstrip map_string]. rewrite isspace_lower_char.
  by destruct (py_isspace c).
Qed.

Lemma list_ascii_map_string (f : ascii -> ascii) (t : string) :
  list_ascii_of_string (map_string f t) = List.map f (list_ascii_of_string t).
Proof. induction t as [|c t IH]; [done|]. simpl. by rewrite IH. Qed.

Lemma string_of_list_map (f : ascii -> ascii) (l : list ascii) :
  string_of_list_ascii (List.map f l) = map_string f (string_of_list_ascii l).
Proof. induction l as [|c l IH]; [done|]. simpl. by rewrite IH. Qed.

Lemma lower_str_rev (t : string) : lower (str_rev t) = str_rev (lower t).
Proof.
  unfold lower, str_rev.
  by rewrite list_ascii_map_string, <- map_rev, string_of_list_map.
Qed.

Lemma lower_norm_text (t : string) : lower (norm_text t) = norm_text (lower t).
Proof.
  unfold norm_text, strip, rstrip.
  by rewrite lower_collapse_ws, lower_str_rev, lower_lstrip, lower_str_rev,
    lower_lstrip.
Qed.

(** Whether a text mentions "lote" does not depend on normalising it. *)
Lemma mentions_norm_text (t : string) :
  str_in "lote" (lower (norm_text t)) = str_in "lote" (lower t).
Proof. rewrite lower_norm_text. by apply str_in_norm_text. Qed.

(** A joined list reads any run of its items joined the same way. *)
Lemma str_join_cons (sep x : string) (l : list string) :
  str_join sep (x :: l)
  = match l with [] => x | _ :: _ => x ++ sep ++ str_join sep l end.
Proof. by destruct l. Qed.

Lemma str_join_prefix (sep : string) (m l2 : list string) :
  exists q, str_join sep (m ++ l2) = str_join sep m ++ q.
Proof.
  induction m as [|x m IH].
  - by exists (str_join sep l2).
  - destruct IH as [q Hq]. rewrite <- app_comm_cons, !str_join_cons.
    destruct m as [|y m].
    + destruct l2 as [|z l2]; simpl app.
      * exists "". by rewrite str_app_nil_r.
      * by eexists.
    + rewrite <- app_comm_cons in *. rewrite Hq. exists q.
      by rewrite !str_app_assoc.
Qed.

Lemma str_join_infix (sep : string) (l1 m l2 : list string) :
  exists p q, str_join sep (l1 ++ m ++ l2) = p ++ str_join sep m ++ q.
Proof.
  induction l1 as [|x l1 IH].
  - destruct (str_join_prefix sep m l2) as [q Hq]. by exists "", q.
  - destruct IH as (p & q & Hpq). rewrite <- app_comm_cons, str_join_cons.
    destruct (l1 ++ m ++ l2)%list as [|y r] eqn:Hr.
    + apply app_eq_nil in Hr as [_ Hr]. apply app_eq_nil in Hr as [-> _].
      exists x, "". by rewrite str_app_nil_r.
    + rewrite Hpq. exists (x ++ sep ++ p), q. by rewrite !str_app_assoc.
Qed.

(** Induction on a document tree. *)
Lemma node_forall_ind (P : node -> Prop) :
  (forall s, P (Text s)) ->
  (forall tag attrs children, Forall P children -> P (Elem tag attrs children)) ->
  forall n, P n.
Proof.
  intros HT HE. fix IH 1. intros [s|tag attrs children]; [apply HT|].
  apply HE. induction children as [|c children IHc]; constructor;
    [apply IH | apply IHc].
Qed.

Lemma flat_map_strings_infix (children : list node) (child : node) :
  In child children ->
  exists l1 l2,
    List.flat_map strings_of children = (l1 ++ strings_of child ++ l2)%list.
Proof.
  intros Hin. apply in_split in Hin as (pre & post & ->).
  rewrite flat_map_app. simpl.
  by exists (List.flat_map strings_of pre), (List.flat_map strings_of post).
Qed.

(** The strings of an element below a node form a run of the strings of
    the node. *)
Lemma strings_of_element_infix (n : node) : forall ancestors e,
  In e (elements_of ancestors n) ->
  exists l1 l2,
    strings_of n = (l1 ++ List.flat_map strings_of (el_children e) ++ l2)%list.
Proof.
  induction n as [s|tag attrs children IH] using node_forall_ind;
    intros ancestors e Hin; [done|].
  cbn [elements_of] in Hin. destruct Hin as [<-|Hin].
  - exists [], []. cbn [strings_of el_children]. by rewrite app_nil_r.
  - apply in_flat_map in Hin as (child & Hchild & He).
    rewrite Forall_forall in IH.
    destruct (IH child (proj2 (list_elem_of_In _ _) Hchild) _ _ He) as (l1 & l2 & Hs).
    destruct (flat_map_strings_infix children child Hchild) as (k1 & k2 & Hk).
    cbn [strings_of]. rewrite Hk, Hs.
    exists (k1 ++ l1)%list, (l2 ++ k2)%list. by rewrite <- !app_assoc.
Qed.

Lemma strings_of_descendant_infix (c e : element) :
  In e (descendants c) ->
  exists l1 l2,
    List.flat_map strings_of (el_children c)
    = (l1 ++ List.flat_map strings_of (el_children e) ++ l2)%list.
Proof.
  unfold descendants. intros Hin.
  apply in_flat_map in Hin as (child & Hchild & He).
  destruct (strings_of_element_infix child _ _ He) as (l1 & l2 & Hs).
  destruct (flat_map_strings_infix _ child Hchild) as (k1 & k2 & Hk).
  rewrite Hk, Hs. exists (k1 ++ l1)%list, (l2 ++ k2)%list.
  by rewrite <- !app_assoc.
Qed.

(** A card whose descendant mentions "lote" mentions it itself. *)
Lemma mentions_lote_of_descendant (c e : element) :
  In e (descendants c) ->
  mentions_lote (element_text e) = true ->
  mentions_lote (element_text c) = true.
Proof.
  intros Hin Hm. unfold mentions_lote in *.
  apply andb_true_iff in Hm as [_ Hm].
  assert (Hc : str_in "lote" (lower (element_text c)) = true).
  { unfold element_text in *. rewrite mentions_norm_text in *.
    unfold get_text in *.
    destruct (strings_of_descendant_infix c e Hin) as (l1 & l2 & ->).
    destruct (str_join_infix " " l1 (List.flat_map strings_of (el_children e)) l2)
      as (p & q & ->).
    unfold lower in *. rewrite !map_string_app.
    by apply str_in_app_r, str_in_app_l. }
  rewrite Hc, andb_true_r. by destruct (element_text c).
Qed.

(** ** Lot cards *)

Section lot_cards_facts.
Context `{rt : Runtime}.
Variable auction_id : string.
Variable base : string.

Lemma outer_card_loop_none (html : list node) (cards : list element) :
  outer_card_loop auction_id base html cards = None
  <-> forall card, card ∈ cards -> mentions_lote (element_text card) = false.
Proof.
  induction cards as [|card cards IH]; simpl.
  - split; [|done]. intros _ card Hin. by apply elem_of_nil in Hin.
  - destruct (mentions_lote (element_text card)) eqn:Hm; simpl.
    + split; [done|]. intros Hall. specialize (Hall card ltac:(left)). congruence.
    + rewrite IH. split.
      * intros Hall c Hc. apply elem_of_cons in Hc as [->|Hc]; auto.
      * intros Hall c Hc. apply Hall. by right.
Qed.

Lemma outer_card_loop_some (html : list node) (cards : list element) :
  (exists card, card ∈ cards /\ mentions_lote (element_text card) = true) ->
  outer_card_loop auction_id base html cards
  = Some (lots_of_page auction_id base html).
Proof.
  intros (card & Hin & Hm).
  induction cards as [|c cards IH]; [by apply elem_of_nil in Hin|]. simpl.
  destruct (mentions_lote (element_text c)) eqn:Hc; simpl; [done|].
  apply IH. apply elem_of_cons in Hin as [->|Hin]; [congruence | done].
Qed.

Lemma dict_put_not_nil (uniq : list (string * Lot)) (l : Lot) : dict_put uniq l <> [].
Proof. destruct uniq as [|[k v] uniq]; simpl; [done|]. by case_match. Qed.

Lemma fold_dict_put_not_nil (lots : list Lot) (uniq : list (string * Lot)) :
  uniq <> [] -> fold_left dict_put lots uniq <> [].
Proof.
  revert uniq. induction lots as [|l lots IH]; intros uniq Hne; simpl; [done|].
  apply IH, dict_put_not_nil.
Qed.

Lemma dedup_by_id_not_nil (lots : list Lot) : lots <> [] -> dedup_by_id lots <> [].
Proof.
  destruct lots as [|l lots]; [done|]. intros _. unfold dedup_by_id. simpl.
  pose proof (fold_dict_put_not_nil lots [(lot_id l, l)] ltac:(done)) as H.
  by destruct (fold_left dict_put lots [(lot_id l, l)]).
Qed.

Lemma dict_put_keyed uniq l : keyed_by_id uniq -> keyed_by_id (dict_put uniq l).
Proof.
  induction uniq as [|[k v] uniq IH]; intros Hk; simpl.
  - intros k' v' [[= <- <-]|[]]. done.
  - destruct (String.eqb k (lot_id l)) eqn:He.
    + apply String.eqb_eq in He.
      intros k' v' [[= <- <-]|Hin]; [done|]. apply Hk. by right.
    + intros k' v' [[= <- <-]|Hin]; [apply Hk; by left|].
      apply IH; [|done]. intros k2 v2 H2. apply Hk. by right.
Qed.

Lemma dict_put_has_id uniq l : exists v, In (lot_id l, v) (dict_put uniq l).
Proof.
  induction uniq as [|[k v] uniq IH]; simpl; [exists l; by left|].
  destruct (String.eqb k (lot_id l)) eqn:He.
  - apply String.eqb_eq in He. subst. exists l. by left.
  - destruct IH as [v' Hv']. exists v'. by right.
Qed.

Lemma dict_put_keeps_keys uniq l k v :
  In (k, v) uniq -> exists v', In (k, v') (dict_put uniq l).
Proof.
  induction uniq as [|[k0 v0] uniq IH]; simpl; [done|].
  intros [[= -> ->]|Hin].
  - destruct (String.eqb k (lot_id l)); eexists; by left.
  - destruct (String.eqb k0 (lot_id l)).
    + exists v. by right.
    + destruct (IH Hin) as [v' Hv']. exists v'. by right.
Qed.

Lemma fold_dict_put_keeps_keys lots : forall uniq k v,
  In (k, v) uniq -> exists v', In (k, v') (fold_left dict_put lots uniq).
Proof.
  induction lots as [|l lots IH]; intros uniq k v Hin; simpl; [by exists v|].
  destruct (dict_put_keeps_keys uniq l k v Hin) as [v' Hv']. by eapply IH.
Qed.

Lemma fold_dict_put_keyed lots : forall uniq,
  keyed_by_id uniq -> keyed_by_id (fold_left dict_put lots uniq).
Proof.
  induction lots as [|l lots IH]; intros uniq Hk; simpl; [done|].
  apply IH, dict_put_keyed, Hk.
Qed.

(** The de-duplication loses no id: every record that went in has a
    record with its id in the result. *)
Lemma dedup_by_id_keeps_ids (lots : list Lot) (l : Lot) :
  In l lots -> exists l', In l' (dedup_by_id lots) /\ lot_id l' = lot_id l.
Proof.
  unfold dedup_by_id.
  assert (Hgen : forall uniq, keyed_by_id uniq -> In l lots ->
            exists l', In l' (List.map snd (fold_left dict_put lots uniq))
                       /\ lot_id l' = lot_id l).
  { induction lots as [|x lots IH]; intros uniq Hk Hin; [done|]. simpl.
    destruct Hin as [->|Hin].
    - destruct (dict_put_has_id uniq l) as [v Hv].
      destruct (fold_dict_put_keeps_keys lots _ _ _ Hv) as [v' Hv'].
      exists v'. split; [apply in_map_iff; by exists (lot_id l, v')|].
      symmetry. eapply fold_dict_put_keyed; [|exact Hv']. by apply dict_put_keyed.
    - apply IH; [by apply dict_put_keyed | done]. }
  apply Hgen. by intros k v [].
Qed.

Lemma dedup_by_id_two (l1 l2 : Lot) :
  lot_id l1 <> lot_id l2 -> dedup_by_id [l1; l2] = [l1; l2].
Proof.
  intros Hne. unfold dedup_by_id. simpl.
  destruct (String.eqb (lot_id l1) (lot_id l2)) eqn:He; [|done].
  by apply String.eqb_eq in He.
Qed.

Lemma lots_of_page_not_nil (html : list node) :
  (exists card, card ∈ soup_select sel_div_article html
                /\ mentions_lote (element_text card) = true) ->
  lots_of_page auction_id base html <> [].
Proof.
  intros (card & Hin & Hm). unfold lots_of_page.
  destruct (soup_select sel_site_card html) as [|c cs] eqn:Hs.
  - apply dedup_by_id_not_nil. intros Hnil.
    match type of Hnil with
    | ?L = [] =>
        assert (Hl : In (scanned_card_lot auction_id base card (element_text card)) L)
    end.
    { apply in_flat_map. exists card. split; [by apply list_elem_of_In|].
      cbn zeta. rewrite Hm. by left. }
    by rewrite Hnil in Hl.
  - by apply dedup_by_id_not_nil.
Qed.

Lemma outer_card_loop_cases (html : list node) (cards : list element) :
  outer_card_loop auction_id base html cards = None
  \/ exists card, card ∈ cards /\ mentions_lote (element_text card) = true.
Proof.
  induction cards as [|c cards IH]; simpl; [by left|].
  destruct (mentions_lote (element_text c)) eqn:Hc; simpl.
  - right. exists c. split; [by left | done].
  - destruct IH as [IH|(card & Hin & Hm)]; [by left|].
    right. exists card. split; [by right | done].
Qed.

(** C10: [parse_lot_cards_from_html] returns [None], not an empty list,
    exactly when no [div] or [article] of the page has a text that
    mentions "lote" in any case, the document without elements included:
    the only [return] statements are inside the loop over those cards.
    A caller that iterates the result then fails: the first-page block of
    the HTML path raises when page 1 is not checkpointed. *)
Theorem parse_lot_cards_none_without_lote :
  (forall html,
      parse_lot_cards_from_html auction_id base html = None
      <-> forall card, card ∈ soup_select sel_div_article html ->
            str_in "lote" (lower (element_text card)) = false)
  /\ parse_lot_cards_from_html auction_id base [] = None
  /\ (forall html, parse_lot_cards_from_html auction_id base html <> Some [])
  /\ (forall html st lots_all,
        (forall card, card ∈ soup_select sel_div_article html ->
           str_in "lote" (lower (element_text card)) = false) ->
        is_page_done (checkpoint st) auction_id 1 = false ->
        process_first_page auction_id base html st lots_all = None).
Proof.
  assert (Hiff : forall html,
             parse_lot_cards_from_html auction_id base html = None
             <-> forall card, card ∈ soup_select sel_div_article html ->
                   str_in "lote" (lower (element_text card)) = false).
  { intros html. unfold parse_lot_cards_from_html. rewrite outer_card_loop_none.
    split; intros Hall card Hin; specialize (Hall card Hin).
    - unfold mentions_lote in Hall. apply andb_false_iff in Hall as [Hempty|Hno]; [|done].
      destruct (element_text card); [done | discriminate].
    - unfold mentions_lote. by rewrite Hall, andb_false_r. }
  split; [exact Hiff | split; [reflexivity | split]].
  - intros html Hnil.
    destruct (parse_lot_cards_from_html auction_id base html) as [lots|] eqn:Hp;
      [|done].
    injection Hnil as ->.
    unfold parse_lot_cards_from_html in Hp.
    assert (Hex : exists card, card ∈ soup_select sel_div_article html
                               /\ mentions_lote (element_text card) = true).
    { destruct (outer_card_loop_cases html (soup_select sel_div_article html))
        as [Hnone|Hex]; [congruence | exact Hex]. }
    rewrite (outer_card_loop_some _ _ Hex) in Hp. injection Hp as Hp.
    by apply (lots_of_page_not_nil html Hex).
  - intros html st lots_all Hno Hdone. unfold process_first_page.
    rewrite Hdone. simpl. by rewrite (proj2 (Hiff html) Hno).
Qed.
End lot_cards_facts.
Section lot_collision_facts.
Context `{rt : Runtime}.
Variable auction_id : string.
Variable base : string.

Lemma site_card_is_card (html : list node) (c : element) :
  c ∈ soup_select sel_site_card html -> c ∈ soup_select sel_div_article html.
Proof.
  unfold soup_select. rewrite !list_elem_of_In, !filter_In.
  intros [Hin Hm]. split; [done|].
  unfold matches_selector, sel_site_card, sel_div_article in *. simpl in *.
  rewrite orb_false_r in Hm. unfold matches_complex in *. simpl in Hm.
  rewrite andb_true_r in Hm. unfold matches_compound in Hm. simpl in Hm.
  apply andb_true_iff in Hm as [Hm _]. apply andb_true_iff in Hm as [Hm _].
  apply andb_true_iff in Hm as [Hm _].
  unfold matches_compound. simpl. by rewrite Hm.
Qed.

Lemma site_card_lot_id (c : element) :
  attr_get (el_attrs c) "id" = None ->
  lot_id (site_card_lot auction_id base c) = label_lot_id (card_label c).
Proof.
  intros Hid. unfold site_card_lot, label_lot_id, card_label. cbn [lot_id].
  rewrite Hid. cbn [default]. change (str_truthy (strip "")) with false. cbv iota.
  destruct (re_search re_lote_num _) as [m|]; [|done].
  by destruct (opt_truthy (group m 1)).
Qed.

Lemma scanned_card_lot_id (c : element) (text : string) :
  lot_id (scanned_card_lot auction_id base c text) = scanned_lot_id text.
Proof. reflexivity. Qed.

Lemma select_one_descendant (sel : list (list compound)) (c e : element) :
  select_one sel c = Some e -> In e (descendants c).
Proof.
  unfold select_one, select. intros Hh.
  assert (Hin : In e (List.filter (matches_selector sel) (descendants c))).
  { destruct (List.filter _ _) as [|x l]; [done|]. injection Hh as ->. by left. }
  by apply filter_In in Hin as [Hin _].
Qed.

(** A card whose label mentions "lote" mentions it in its text. *)
Lemma card_label_mentions (c : element) :
  mentions_lote (card_label c) = true -> mentions_lote (element_text c) = true.
Proof.
  unfold card_label.
  destruct (select_one sel_header_b c) as [hb|] eqn:Hh; cbn [fmap option_fmap option_map];
    [|done].
  destruct (opt_truthy (Some (element_text hb))); [|done].
  cbn [default]. intros Hm.
  eapply mentions_lote_of_descendant; [|exact Hm].
  by eapply select_one_descendant.
Qed.

Lemma lots_of_scanned_page (html : list node) :
  soup_select sel_site_card html = [] ->
  lots_of_page auction_id base html
  = dedup_by_id
      (List.map (fun c => scanned_card_lot auction_id base c (element_text c))
         (lote_cards html)).
Proof.
  intros Hnone. unfold lots_of_page, lote_cards. rewrite Hnone. cbn zeta. f_equal.
  induction (soup_select sel_div_article html) as [|c cs IH]; [done|].
  simpl. destruct (mentions_lote (element_text c)); simpl; by rewrite IH.
Qed.

(** The two spellings of the suffixed label and the id each must keep. *)
Lemma suffixed_label_ids (label2 id2 : string) :
  suffixed_label label2 id2 ->
  label_lot_id label2 = id2 /\ scanned_lot_id label2 = id2
  /\ mentions_lote label2 = true /\ id2 <> "123".
Proof. intros [[-> ->]|[-> ->]]; repeat split; done. Qed.

Lemma lot_id_in_dedup (lots : list Lot) (l : Lot) :
  l ∈ lots -> exists l', l' ∈ dedup_by_id lots /\ lot_id l' = lot_id l.
Proof.
  rewrite list_elem_of_In. intros Hin.
  destruct (dedup_by_id_keeps_ids lots l Hin) as (l' & Hin' & Hid).
  exists l'. by rewrite list_elem_of_In.
Qed.

(** C7: on a page with a card labelled "Lote 123" and a card labelled
    "Lote 123A" (or "Lote 123-A"), neither with an id attribute, the
    result holds a record with id "123" and another whose id keeps the
    suffix; when these are the only cards the result has exactly two
    records.  This holds for the structured cards of the site and, when
    the page has none, for the cards the heuristic scan finds. *)
Theorem suffixed_lot_labels_stay_distinct (html : list node)
    (label2 id2 : string) (c1 c2 : element) :
  suffixed_label label2 id2 ->
  (c1 ∈ soup_select sel_site_card html ->
   c2 ∈ soup_select sel_site_card html ->
   attr_get (el_attrs c1) "id" = None ->
   attr_get (el_attrs c2) "id" = None ->
   card_label c1 = "Lote 123" ->
   card_label c2 = label2 ->
   exists lots l1 l2,
     parse_lot_cards_from_html auction_id base html = Some lots
     /\ l1 ∈ lots /\ l2 ∈ lots
     /\ lot_id l1 = "123" /\ lot_id l2 = id2 /\ lot_id l1 <> lot_id l2
     /\ (soup_select sel_site_card html = [c1; c2]
         \/ soup_select sel_site_card html = [c2; c1] ->
         length lots = 2%nat))
  /\ (soup_select sel_site_card html = [] ->
      c1 ∈ soup_select sel_div_article html ->
      c2 ∈ soup_select sel_div_article html ->
      element_text c1 = "Lote 123" ->
      element_text c2 = label2 ->
      exists lots l1 l2,
        parse_lot_cards_from_html auction_id base html = Some lots
        /\ l1 ∈ lots /\ l2 ∈ lots
        /\ lot_id l1 = "123" /\ lot_id l2 = id2 /\ lot_id l1 <> lot_id l2
        /\ (lote_cards html = [c1; c2] \/ lote_cards html = [c2; c1] ->
            length lots = 2%nat)).
Proof.
  intros Hsuffix.
  destruct (suffixed_label_ids _ _ Hsuffix) as (Hid2 & Hscan2 & Hm2 & Hne).
  split.
  - intros Hc1 Hc2 Hno1 Hno2 Hl1 Hl2.
    assert (Hparse : parse_lot_cards_from_html auction_id base html
                     = Some (lots_of_page auction_id base html)).
    { apply outer_card_loop_some. exists c1. split; [by apply site_card_is_card|].
      apply card_label_mentions. by rewrite Hl1. }
    assert (Hlots : lots_of_page auction_id base html
                    = dedup_by_id (List.map (site_card_lot auction_id base)
                                     (soup_select sel_site_card html))).
    { unfold lots_of_page. cbn zeta.
      destruct (soup_select sel_site_card html); [|done].
      by apply elem_of_nil in Hc1. }
    assert (Hi1 : lot_id (site_card_lot auction_id base c1) = "123").
    { by rewrite site_card_lot_id, Hl1. }
    assert (Hi2 : lot_id (site_card_lot auction_id base c2) = id2).
    { by rewrite site_card_lot_id, Hl2. }
    destruct (lot_id_in_dedup
                (List.map (site_card_lot auction_id base)
                   (soup_select sel_site_card html))
                (site_card_lot auction_id base c1)) as (l1 & Hin1 & Hid1).
    { apply list_elem_of_fmap. by exists c1. }
    destruct (lot_id_in_dedup
                (List.map (site_card_lot auction_id base)
                   (soup_select sel_site_card html))
                (site_card_lot auction_id base c2)) as (l2 & Hin2 & Hid2').
    { apply list_elem_of_fmap. by exists c2. }
    exists (lots_of_page auction_id base html), l1, l2.
    rewrite Hlots.
    split; [by rewrite <- Hlots|]. split; [done|]. split; [done|].
    split; [congruence|]. split; [congruence|]. split; [congruence|].
    intros [Hcards|Hcards]; rewrite Hcards; cbn [List.map];
      rewrite dedup_by_id_two; try done; congruence.
  - intros Hnone Hc1 Hc2 Ht1 Ht2.
    assert (Hparse : parse_lot_cards_from_html auction_id base html
                     = Some (lots_of_page auction_id base html)).
    { apply outer_card_loop_some. exists c1. split; [done|]. by rewrite Ht1. }
    rewrite Hparse, (lots_of_scanned_page html Hnone).
    assert (Hin : forall c, c ∈ soup_select sel_div_article html ->
                    mentions_lote (element_text c) = true ->
                    scanned_card_lot auction_id base c (element_text c)
                    ∈ List.map (fun c => scanned_card_lot auction_id base c
                                           (element_text c)) (lote_cards html)).
    { intros c Hc Hm. apply list_elem_of_fmap. exists c. split; [done|].
      unfold lote_cards. apply list_elem_of_In, filter_In.
      split; [by apply list_elem_of_In | done]. }
    destruct (lot_id_in_dedup _ _ (Hin c1 Hc1 ltac:(by rewrite Ht1)))
      as (l1 & Hin1 & Hid1).
    destruct (lot_id_in_dedup _ _ (Hin c2 Hc2 ltac:(by rewrite Ht2)))
      as (l2 & Hin2 & Hid2').
    rewrite scanned_card_lot_id, Ht1 in Hid1.
    rewrite scanned_card_lot_id, Ht2, Hscan2 in Hid2'.
    change (scanned_lot_id "Lote 123") with "123" in Hid1.
    eexists _, l1, l2. split; [reflexivity|]. split; [done|]. split; [done|].
    split; [done|]. split; [done|]. split; [congruence|].
    intros [Hcards|Hcards]; rewrite Hcards; cbn [List.map];
      rewrite dedup_by_id_two; try done;
      rewrite !scanned_card_lot_id, Ht1, Ht2, Hscan2;
      change (scanned_lot_id "Lote 123") with "123"; congruence.
Qed.
End lot_collision_facts.

(** The two scenarios of the collision test, each parsed to exactly two
    records with ids "123" and the suffixed one. *)
Lemma suffixed_lot_labels_stay_distinct_witness :
  (exists lots l1 l2,
     @parse_lot_cards_from_html example_runtime "test" "http://example.com"
       (collision_page "Lote 123A") = Some lots
     /\ l1 ∈ lots /\ l2 ∈ lots
     /\ lot_id l1 = "123" /\ lot_id l2 = "123A" /\ length lots = 2%nat)
  /\ (exists lots l1 l2,
        @parse_lot_cards_from_html example_runtime "test" "http://example.com"
          (collision_page "Lote 123-A") = Some lots
        /\ l1 ∈ lots /\ l2 ∈ lots
        /\ lot_id l1 = "123" /\ lot_id l2 = "123-A" /\ length lots = 2%nat).
Proof.
  split.
  - destruct (@suffixed_lot_labels_stay_distinct example_runtime "test"
                "http://example.com" (collision_page "Lote 123A")
                "Lote 123A" "123A"
                (collision_element "Lote 123" "R$ 10")
                (collision_element "Lote 123A" "R$ 20")) as [H _].
    { left. split; reflexivity. }
    assert (Hsel : soup_select sel_site_card (collision_page "Lote 123A")
                   = [collision_element "Lote 123" "R$ 10";
                      collision_element "Lote 123A" "R$ 20"]) by reflexivity.
    destruct H as (lots & l1 & l2 & Hp & H1 & H2 & Hi1 & Hi2 & _ & Hlen);
      try reflexivity.
    + rewrite Hsel. apply list_elem_of_here.
    + rewrite Hsel. apply list_elem_of_further, list_elem_of_here.
    + exists lots, l1, l2.
      split; [exact Hp|]. split; [exact H1|]. split; [exact H2|].
      split; [exact Hi1|]. split; [exact Hi2|]. apply Hlen. left. reflexivity.
  - destruct (@suffixed_lot_labels_stay_distinct example_runtime "test"
                "http://example.com" (collision_page "Lote 123-A")
                "Lote 123-A" "123-A"
                (collision_element "Lote 123" "R$ 10")
                (collision_element "Lote 123-A" "R$ 20")) as [H _].
    { right. split; reflexivity. }
    assert (Hsel : soup_select sel_site_card (collision_page "Lote 123-A")
                   = [collision_element "Lote 123" "R$ 10";
                      collision_element "Lote 123-A" "R$ 20"]) by reflexivity.
    destruct H as (lots & l1 & l2 & Hp & H1 & H2 & Hi1 & Hi2 & _ & Hlen);
      try reflexivity.
    + rewrite Hsel. apply list_elem_of_here.
    + rewrite Hsel. apply list_elem_of_further, list_elem_of_here.
    + exists lots, l1, l2.
      split; [exact Hp|]. split; [exact H1|]. split; [exact H2|].
      split; [exact Hi1|]. split; [exact Hi2|]. apply Hlen. left. reflexivity.
Defined.

(** A page whose only [div] reads "Nenhum item": the parser gives
    [None] and the first-page block of a fresh crawl raises. *)
Lemma parse_lot_cards_none_without_lote_witness :
  @parse_lot_cards_from_html example_runtime "a1" "https://leilao.example/lotes"
    [Elem "html" [] [Elem "body" [] [Elem "div" [] [Text "Nenhum item"]]]]
  = None
  /\ @process_first_page example_runtime "a1" "https://leilao.example/lotes"
       [Elem "html" [] [Elem "body" [] [Elem "div" [] [Text "Nenhum item"]]]]
       (MkCrawlState fresh_checkpoint None [] []) []
     = None.
Proof.
  destruct (@parse_lot_cards_none_without_lote example_runtime "a1"
              "https://leilao.example/lotes") as (Hiff & _ & _ & Hcaller).
  assert (Hno : forall card,
            card ∈ soup_select sel_div_article
                     [Elem "html" [] [Elem "body" [] [Elem "div" [] [Text "Nenhum item"]]]] ->
            str_in "lote" (lower (element_text card)) = false).
  { intros card Hin. apply list_elem_of_singleton in Hin as ->. reflexivity. }
  split; [by apply Hiff | by apply Hcaller].
Defined.

(* ===================================================================== *)
(** * Further properties of the code *)
(* ===================================================================== *)

(** ** De-duplication by id *)

Lemma lookup_id_dict_put (uniq : list (string * Lot)) (l : Lot) (k : string) :
  lookup_id (dict_put uniq l) k
  = if String.eqb (lot_id l) k then Some l else lookup_id uniq k.
Proof.
  induction uniq as [|[k0 v0] uniq IH]; simpl; [done|].
  destruct (String.eqb k0 (lot_id l)) eqn:E0; simpl.
  - apply String.eqb_eq in E0. subst k0. by destruct (String.eqb (lot_id l) k).
  - rewrite IH. destruct (String.eqb k0 k) eqn:E1; [|done].
    apply String.eqb_eq in E1. subst k0.
    rewrite String.eqb_sym in E0. by rewrite E0.
Qed.

Lemma find_app_last {A} (f : A -> bool) (l : list A) (x : A) :
  List.find f (l ++ [x])
  = match List.find f l with
    | Some y => Some y
    | None => if f x then Some x else None
    end.
Proof.
  induction l as [|y l IH]; simpl; [done|]. by destruct (f y).
Qed.

Lemma lookup_id_fold (lots : list Lot) : forall uniq k,
  lookup_id (fold_left dict_put lots uniq) k
  = match last_with_id k lots with
    | Some l => Some l
    | None => lookup_id uniq k
    end.
Proof.
  unfold last_with_id.
  induction lots as [|l lots IH]; intros uniq k; [done|].
  simpl fold_left. rewrite IH, lookup_id_dict_put. simpl rev.
  rewrite find_app_last. destruct (List.find _ (rev lots)); [done|].
  by destruct (String.eqb (lot_id l) k).
Qed.

Lemma dict_put_keys (uniq : list (string * Lot)) (l : Lot) :
  List.map fst (dict_put uniq l)
  = if in_keys (lot_id l) (List.map fst uniq) then List.map fst uniq
    else (List.map fst uniq ++ [lot_id l])%list.
Proof.
  induction uniq as [|[k0 v0] uniq IH]; simpl; [done|].
  rewrite (String.eqb_sym (lot_id l) k0).
  destruct (String.eqb k0 (lot_id l)); simpl; [done|].
  rewrite IH. unfold in_keys. by destruct (existsb _ _).
Qed.

Lemma in_keys_false (k : string) (keys : list string) :
  in_keys k keys = false <-> ~ In k keys.
Proof.
  rewrite <- not_true_iff_false, in_keys_elem, list_elem_of_In. tauto.
Qed.

Lemma dict_put_nodup (uniq : list (string * Lot)) (l : Lot) :
  NoDup (List.map fst uniq) -> NoDup (List.map fst (dict_put uniq l)).
Proof.
  intros Hnd. rewrite dict_put_keys.
  destruct (in_keys (lot_id l) (List.map fst uniq)) eqn:Hin; [done|].
  apply in_keys_false in Hin.
  apply NoDup_app. split; [done|]. split; [|apply NoDup_singleton].
  intros x Hx Hx'. apply list_elem_of_singleton in Hx' as ->.
  by apply Hin, list_elem_of_In.
Qed.

Lemma fold_dict_put_nodup (lots : list Lot) : forall uniq,
  NoDup (List.map fst uniq) -> NoDup (List.map fst (fold_left dict_put lots uniq)).
Proof.
  induction lots as [|l lots IH]; intros uniq Hnd; [done|].
  simpl. by apply IH, dict_put_nodup.
Qed.

Lemma lookup_id_in (uniq : list (string * Lot)) (k : string) (v : Lot) :
  NoDup (List.map fst uniq) ->
  (In (k, v) uniq <-> lookup_id uniq k = Some v).
Proof.
  induction uniq as [|[k0 v0] uniq IH]; intros Hnd; simpl; [by split|].
  apply NoDup_cons in Hnd as [Hk0 Hnd].
  destruct (String.eqb k0 k) eqn:E.
  - apply String.eqb_eq in E. subst k0. split.
    + intros [[= ->]|Hin]; [done|]. exfalso. apply Hk0.
      apply list_elem_of_In, in_map_iff. by exists (k, v).
    + intros [= ->]. by left.
  - apply String.eqb_neq in E. rewrite <- IH by done. split.
    + intros [[= -> ->]|Hin]; [done | done].
    + intros Hin. by right.
Qed.

Lemma keyed_map_ids (uniq : list (string * Lot)) :
  keyed_by_id uniq -> List.map lot_id (List.map snd uniq) = List.map fst uniq.
Proof.
  induction uniq as [|[k v] uniq IH]; intros Hk; simpl; [done|].
  rewrite IH; [|intros k' v' Hin; apply Hk; by right].
  f_equal. symmetry. apply Hk. by left.
Qed.

Lemma dict_put_fresh (uniq : list (string * Lot)) (l : Lot) :
  ~ In (lot_id l) (List.map fst uniq) ->
  dict_put uniq l = (uniq ++ [(lot_id l, l)])%list.
Proof.
  induction uniq as [|[k v] uniq IH]; intros Hnot; simpl; [done|].
  destruct (String.eqb k (lot_id l)) eqn:E.
  - apply String.eqb_eq in E. subst k. exfalso. apply Hnot. by left.
  - rewrite IH; [done|]. intros Hin. apply Hnot. by right.
Qed.

Lemma fold_dict_put_distinct (lots : list Lot) : forall uniq,
  NoDup (List.map fst uniq ++ List.map lot_id lots) ->
  fold_left dict_put lots uniq
  = (uniq ++ List.map (fun l => (lot_id l, l)) lots)%list.
Proof.
  induction lots as [|l lots IH]; intros uniq Hnd; simpl.
  - by rewrite app_nil_r.
  - assert (Hfresh : ~ In (lot_id l) (List.map fst uniq)).
    { intros Hin. apply NoDup_app in Hnd as (_ & Hdisj & _).
      apply (Hdisj (lot_id l)); [by apply list_elem_of_In | by left]. }
    rewrite (dict_put_fresh uniq l Hfresh), IH.
    + by rewrite <- app_assoc.
    + rewrite map_app. simpl. rewrite <- app_assoc. exact Hnd.
Qed.

Lemma dedup_by_id_nodup (lots : list Lot) :
  NoDup (List.map lot_id (dedup_by_id lots)).
Proof.
  unfold dedup_by_id. rewrite keyed_map_ids.
  - apply fold_dict_put_nodup. constructor.
  - apply fold_dict_put_keyed. by intros k v [].
Qed.

Lemma dedup_by_id_elem (lots : list Lot) (l : Lot) :
  l ∈ dedup_by_id lots <-> last_with_id (lot_id l) lots = Some l.
Proof.
  assert (Hk : keyed_by_id (fold_left dict_put lots [])).
  { apply fold_dict_put_keyed. by intros k v []. }
  assert (Hnd : NoDup (List.map fst (fold_left dict_put lots []))).
  { apply fold_dict_put_nodup. constructor. }
  unfold dedup_by_id. rewrite list_elem_of_In, in_map_iff. split.
  - intros ([k v] & Hv & Hin). simpl in Hv. subst v.
    pose proof (Hk _ _ Hin) as ->.
    apply lookup_id_in in Hin; [|done].
    rewrite lookup_id_fold in Hin. simpl in Hin.
    by destruct (last_with_id (lot_id l) lots).
  - intros Hlast. exists (lot_id l, l). split; [done|].
    apply lookup_id_in; [done|]. by rewrite lookup_id_fold, Hlast.
Qed.

Lemma dedup_by_id_subset (lots : list Lot) (l : Lot) :
  l ∈ dedup_by_id lots -> l ∈ lots.
Proof.
  rewrite dedup_by_id_elem. unfold last_with_id. intros Hfind.
  apply find_some in Hfind as [Hin _].
  apply list_elem_of_In. by apply in_rev.
Qed.

Lemma dedup_by_id_distinct (lots : list Lot) :
  NoDup (List.map lot_id lots) -> dedup_by_id lots = lots.
Proof.
  intros Hls. unfold dedup_by_id.
  rewrite fold_dict_put_distinct by done. simpl.
  rewrite map_map. simpl. apply map_id.
Qed.

Lemma dict_put_length (uniq : list (string * Lot)) (l : Lot) :
  (length (dict_put uniq l) <= S (length uniq))%nat.
Proof.
  induction uniq as [|[k v] uniq IHu]; simpl; [lia|].
  destruct (String.eqb k (lot_id l)); simpl; lia.
Qed.

Lemma fold_dict_put_length (lots : list Lot) : forall uniq,
  (length (fold_left dict_put lots uniq) <= length uniq + length lots)%nat.
Proof.
  induction lots as [|l lots IH]; intros uniq; simpl; [lia|].
  specialize (IH (dict_put uniq l)). pose proof (dict_put_length uniq l). lia.
Qed.

(** X1: the de-duplication used after every extraction keeps, for each
    id, exactly the last record that carries it: the ids of the result
    are pairwise distinct, a record is in the result exactly when it is
    the last of its id in the input, de-duplicating again changes
    nothing, and the result is never longer than the input. *)
Theorem dedup_by_id_last_write_wins (lots : list Lot) :
  NoDup (List.map lot_id (dedup_by_id lots))
  /\ (forall l, l ∈ dedup_by_id lots <-> last_with_id (lot_id l) lots = Some l)
  /\ dedup_by_id (dedup_by_id lots) = dedup_by_id lots
  /\ (length (dedup_by_id lots) <= length lots)%nat.
Proof.
  split; [apply dedup_by_id_nodup|]. split; [apply dedup_by_id_elem|]. split.
  - apply dedup_by_id_distinct, dedup_by_id_nodup.
  - unfold dedup_by_id. rewrite length_map. apply (fold_dict_put_length lots []).
Qed.
(** ** Retry: what every run looks like *)

Section retry_bounds.
Context {T E : Type}.
Variable fn : nat -> T + E.
Variable policy : RetryPolicy.
Variable should_retry : E -> bool.
Variable rnd : nat -> Q.

Local Abbreviation loop := (retry_loop fn policy should_retry rnd).
Local Abbreviation fails_retryably := (fails_retryably fn should_retry).

Lemma retry_loop_trace (n : nat) : forall (a : Z) last w,
  a + Z.of_nat n = max_attempts policy -> 1 <= a ->
  Z.of_nat (calls w) = a - 1 ->
  length (sleeps w) = calls w ->
  (forall i, (i < calls w)%nat -> fails_retryably i) ->
  (forall i, (i < length (sleeps w))%nat ->
     sleeps w !! i = Some (backoff_delay policy (Z.of_nat i + 1) (rnd i))) ->
  retry_trace fn policy should_retry rnd (loop (seqZ a (Z.of_nat (S n))) last w).
Proof.
  induction n as [|n IH]; intros a last w Ha H1 Hc Hs Hfail Hsl;
    rewrite retry_loop_head; cbn [retry_loop].
  - (* the last attempt *)
    replace (a >=? max_attempts policy) with true
      by (rewrite Z.geb_leb; symmetry; apply Z.leb_le; lia).
    cbn [orb].
    destruct (fn (calls w)) as [v|exc] eqn:Hfn; unfold retry_trace;
      cbn [fst snd calls sleeps Nat.pred]; rewrite Hfn;
      (split; [lia|split; [done|split; [done|split; [done|]]]]).
    + split; [done|lia].
    + split; [done|]. split; [lia|]. left. lia.
  - replace (a >=? max_attempts policy) with false
      by (rewrite Z.geb_leb; symmetry; apply Z.leb_gt; lia).
    cbn [orb].
    destruct (fn (calls w)) as [v|exc] eqn:Hfn.
    { unfold retry_trace. cbn [fst snd calls sleeps Nat.pred]. rewrite Hfn.
      split; [lia|split; [done|split; [done|split; [done|]]]]. split; [done|lia]. }
    destruct (should_retry exc) eqn:Hsr; cbn [negb].
    2:{ unfold retry_trace. cbn [fst snd calls sleeps Nat.pred]. rewrite Hfn.
        split; [lia|split; [done|split; [done|split; [done|]]]].
        split; [done|]. split; [lia|]. by right. }
    apply IH; cbn [calls sleeps].
    + lia.
    + lia.
    + lia.
    + rewrite length_app. simpl. lia.
    + intros i Hi. destruct (decide (i = calls w)) as [->|Hne].
      * by exists exc.
      * apply Hfail. lia.
    + intros i Hi. rewrite length_app in Hi. simpl in Hi.
      destruct (decide (i = length (sleeps w))) as [->|Hne].
      * rewrite lookup_app_r by lia. rewrite Nat.sub_diag. simpl.
        do 2 f_equal. lia.
      * rewrite lookup_app_l by lia. apply Hsl. lia.
Qed.

Lemma retry_call_has_trace :
  retry_trace fn policy should_retry rnd
    (retry_call fn policy should_retry rnd initial_world).
Proof.
  destruct (decide (max_attempts policy <= 0)) as [Hle|Hgt].
  - rewrite retry_call_no_attempts by done.
    unfold retry_trace. simpl.
    split; [lia|split; [done|split; [intros; lia|split; [intros i Hi; lia|]]]].
    done.
  - unfold retry_call.
    replace (max_attempts policy)
      with (Z.of_nat (S (Z.to_nat (max_attempts policy) - 1))) at 1 by lia.
    apply retry_loop_trace; cbn [calls sleeps initial_world]; try done; try lia.
    intros i Hi; simpl in Hi; lia.
Qed.

End retry_bounds.

(** ** Retry: how long it sleeps *)





Section retry_sleeps.
Context {T E : Type}.
Variable fn : nat -> T + E.
Variable policy : RetryPolicy.
Variable should_retry : E -> bool.
Variable rnd : nat -> Q.

End retry_sleeps.

(** ** Rate limiter: a sequence of calls *)




(** ** JSON-first pagination: what the loop asks for and leaves behind *)

Section paging_facts.
Context `{rt : Runtime}.
Variable paginate_url : string -> Z -> string.
Variable paginate_payload : option string -> Z -> option string.
Variable respect : string -> bool.
Variable request : string -> string -> option string -> api_response.
Variable auction_id : string.
Variable max_pages : option Z.
Variable total_pages : option Z.
Variable method : string.
Variable base_url : string.
Variable post_data : option string.

Local Abbreviation turn :=
  (page_turn paginate_url paginate_payload respect request auction_id max_pages
     total_pages method base_url post_data).
Local Abbreviation loop :=
  (page_loop paginate_url paginate_payload respect request auction_id max_pages
     total_pages method base_url post_data).
Local Abbreviation pending :=
  (page_pending paginate_url respect auction_id max_pages method base_url).
Local Abbreviation refused :=
  (auth_refused paginate_url paginate_payload request method base_url post_data).

(** The ways a turn of the loop can end. *)
Lemma page_turn_cases (page : Z) (st : crawl_state) (lots_all : list Lot) :
  (* no request is sent *)
  (~ pending page st
   /\ (turn page st lots_all = BreakLoop st lots_all
       \/ turn page st lots_all = NextPage st lots_all))
  \/ (pending page st
      /\ ((* the request fails or its answer is of no use *)
          (~ refused page
           /\ turn page st lots_all = BreakLoop (note_request page st) lots_all)
          \/ (refused page
              /\ turn page st lots_all = ReturnEmpty (note_request page st))
          \/ (exists data,
                ~ refused page
                /\ turn page st lots_all
                   = NextPage
                       (mark_and_save auction_id page
                          (append_lots page (extract_lots_from_json data auction_id)
                             (note_request page st)))
                       (lots_all ++ extract_lots_from_json data auction_id)))).
Proof.
  unfold page_turn, page_pending, auth_refused.
  destruct (beyond_max_pages max_pages page) eqn:Hbeyond.
  { left. split; [|by left]. intros (_ & ? & _). done. }
  destruct (is_page_done (checkpoint st) auction_id page) eqn:Hdone.
  { left. split; [|by right]. intros (? & _). done. }
  destruct (supported_method method) eqn:Hmeth; cbn [negb].
  2:{ left. split; [|by left]. intros (_ & _ & ? & _). done. }
  destruct (respect _) eqn:Hresp; cbn [negb].
  2:{ left. split; [|by left]. intros (_ & _ & _ & ?). done. }
  right. split; [done|].
  destruct (request _ _ _) as [|status body] eqn:Hreq.
  { left. split; [|done]. intros (s & b & ? & _). done. }
  destruct ((status =? 401)%Z || (status =? 403)%Z) eqn:Hauth.
  { right. left. split; [|done]. exists status, body. split; [done|]. lia. }
  assert (Hnot : ~ (exists status0 body0,
                      Response status body = Response status0 body0
                      /\ (status0 = 401 \/ status0 = 403))).
  { intros (s & b & [= <- <-] & Hs). lia. }
  destruct (response_ok status) eqn:Hok; cbn [negb]; [|by left].
  destruct body as [data|]; [|by left].
  destruct (_ && _) eqn:Hempty; [by left|].
  right. right. by exists data.
Qed.

Lemma pending_earlier (page p : Z) (st : crawl_state) (lots_all : list Lot) :
  pending p (exit_state (turn page st lots_all)) -> pending p st.
Proof.
  intros (Hdone & Hrest). split; [|exact Hrest].
  destruct (is_page_done (checkpoint st) auction_id p) eqn:Hp; [|done].
  pose proof (page_turn_keeps_done paginate_url paginate_payload respect request
                auction_id max_pages total_pages method base_url post_data
                page st lots_all p Hp) as Hkept.
  congruence.
Qed.

Lemma page_loop_requests (pages : list Z) (st : crawl_state) (lots_all : list Lot) :
  exists new,
    requested (loop pages st lots_all).2 = (requested st ++ new)%list
    /\ sublist new pages
    /\ forall p, p ∈ new -> pending p st.
Proof.
  revert st lots_all. induction pages as [|page pages IH]; intros st lots_all.
  { exists []. simpl. rewrite app_nil_r. split; [done|]. split; [done|].
    intros p Hp. by apply elem_of_nil in Hp. }
  cbn [page_loop].
  pose proof (pending_earlier page) as Hearlier.
  specialize (Hearlier) with (st := st) (lots_all := lots_all).
  destruct (page_turn_cases page st lots_all)
    as [[_ [Ht|Ht]]|[Hpend [[_ Ht]|[[_ Ht]|(data & _ & Ht)]]]];
    rewrite Ht in *; cbn [snd exit_state] in *.
  - exists []. rewrite app_nil_r. split; [done|]. split; [apply sublist_nil_l|].
    intros p Hp. by apply elem_of_nil in Hp.
  - destruct (IH st lots_all) as (new & Hreq & Hsub & Hall).
    exists new. split; [done|]. split; [by apply sublist_cons|done].
  - exists [page]. split; [done|]. split.
    + apply sublist_skip, sublist_nil_l.
    + intros p Hp. by apply list_elem_of_singleton in Hp as ->.
  - exists [page]. split; [done|]. split.
    + apply sublist_skip, sublist_nil_l.
    + intros p Hp. by apply list_elem_of_singleton in Hp as ->.
  - match goal with |- context [loop pages ?s ?l] =>
      destruct (IH s l) as (new & Hreq & Hsub & Hall) end.
    exists (page :: new). split.
    + rewrite Hreq. cbn [requested mark_and_save append_lots note_request].
      by rewrite <- app_assoc.
    + split; [by apply sublist_skip|].
      intros p Hp. apply elem_of_cons in Hp as [->|Hp]; [done|].
      apply Hearlier, Hall, Hp.
Qed.

(** X5: the paging loop sends its requests in the order of the pages,
    at most one for each, and only for pages that the checkpoint does
    not hold, that lie within [max_pages], and whose URL robots.txt
    allows; it never sends one with a method other than GET or POST.
    So when the pages are pairwise distinct no page is asked for
    twice. *)
Theorem page_loop_requests_only_pending (pages : list Z) (st : crawl_state)
    (lots_all : list Lot) :
  exists new,
    requested (loop pages st lots_all).2 = (requested st ++ new)%list
    /\ sublist new pages
    /\ (forall p, p ∈ new ->
          p ∈ pages
          /\ is_page_done (checkpoint st) auction_id p = false
          /\ beyond_max_pages max_pages p = false
          /\ supported_method method = true
          /\ respect (request_url paginate_url method base_url p) = true)
    /\ (NoDup pages -> NoDup new).
Proof.
  destruct (page_loop_requests pages st lots_all) as (new & Hreq & Hsub & Hall).
  exists new. split; [done|]. split; [done|]. split.
  - intros p Hp. split; [by eapply elem_of_sublist|]. apply (Hall p Hp).
  - intros Hnd. by eapply sublist_NoDup.
Qed.

Lemma page_loop_requests_kept (pages : list Z) (st : crawl_state)
    (lots_all : list Lot) (p : Z) :
  p ∈ requested st -> p ∈ requested (loop pages st lots_all).2.
Proof.
  revert st lots_all. induction pages as [|page pages IH]; intros st lots_all Hp; [done|].
  cbn [page_loop].
  destruct (page_turn_cases page st lots_all)
    as [[_ [Ht|Ht]]|[Hpend [[_ Ht]|[[_ Ht]|(data & _ & Ht)]]]];
    rewrite Ht; cbn [snd]; try done.
  - by apply IH.
  - cbn [requested note_request]. apply elem_of_app. by left.
  - cbn [requested note_request]. apply elem_of_app. by left.
  - apply IH. cbn [requested mark_and_save append_lots note_request].
    apply elem_of_app. by left.
Qed.

Lemma load_save (cp cp0 : CrawlCheckpoint) : load (save cp) cp0 = cp.
Proof. destruct cp as [m]. unfold load, save. simpl. f_equal. apply dict_of_items_saved. Qed.

Lemma elem_of_map_log (page : Z) (lots : list Lot) (line : log_line) :
  line ∈ List.map (fun l => MkLogLine page l (Some "api")) lots ->
  line_source line = Some "api" /\ line_page line = page /\ line_lot line ∈ lots.
Proof.
  rewrite list_elem_of_In, in_map_iff. intros (l & <- & Hin).
  by rewrite list_elem_of_In.
Qed.

(** X6: when the checkpoint file agrees with the checkpoint in memory
    before the paging loop, it does so after it, so that a restart loads
    exactly the pages marked; the loop only adds lines to the lot log,
    each one from the API, for a page of the loop that was not
    checkpointed before and is checkpointed afterwards; every record the
    loop returns was either handed to it or is on one of these lines;
    and a page is checkpointed afterwards only if it was before or a
    request for it was sent. *)
Theorem page_loop_log_and_checkpoint (pages : list Z) (st : crawl_state)
    (lots_all : list Lot) :
  checkpoint_on_disk st = save (checkpoint st) ->
  let run := loop pages st lots_all in
  (forall cp0, load (checkpoint_on_disk run.2) cp0 = checkpoint run.2)
  /\ (exists lines,
        out_jsonl run.2 = (out_jsonl st ++ lines)%list
        /\ (forall line, line ∈ lines ->
              line_source line = Some "api"
              /\ line_page line ∈ pages
              /\ is_page_done (checkpoint st) auction_id (line_page line) = false
              /\ is_page_done (checkpoint run.2) auction_id (line_page line) = true)
        /\ (forall l, l ∈ run.1 ->
              l ∈ lots_all \/ exists line, line ∈ lines /\ line_lot line = l))
  /\ (forall p, is_page_done (checkpoint run.2) auction_id p = true ->
        is_page_done (checkpoint st) auction_id p = true
        \/ (p ∈ pages /\ p ∈ requested run.2)).
Proof.
  revert st lots_all. induction pages as [|page pages IH]; intros st lots_all Hsync run.
  { subst run. cbn [page_loop fst snd]. split; [|split].
    - intros cp0. rewrite Hsync. apply load_save.
    - exists []. rewrite app_nil_r. split; [done|]. split.
      + intros line Hl. by apply elem_of_nil in Hl.
      + intros l Hl. left. by apply dedup_by_id_subset.
    - intros p Hp. by left. }
  subst run. cbn [page_loop].
  destruct (page_turn_cases page st lots_all)
    as [[_ [Ht|Ht]]|[Hpend [[_ Ht]|[[_ Ht]|(data & _ & Ht)]]]];
    rewrite Ht; cbn [fst snd].
  - split; [|split].
    + intros cp0. rewrite Hsync. apply load_save.
    + exists []. rewrite app_nil_r. split; [done|]. split.
      * intros line Hl. by apply elem_of_nil in Hl.
      * intros l Hl. left. by apply dedup_by_id_subset.
    + intros p Hp. by left.
  - destruct (IH st lots_all Hsync) as (Hload & (lines & Hlog & Hlines & Hlots) & Hmarked).
    split; [exact Hload|]. split.
    + exists lines. split; [exact Hlog|]. split; [|exact Hlots].
      intros line Hl. destruct (Hlines line Hl) as (? & ? & ? & ?).
      repeat split; try done. by right.
    + intros p Hp. destruct (Hmarked p Hp) as [?|[? ?]]; [by left|].
      right. split; [by right|done].
  - split; [|split].
    + intros cp0. cbn [note_request checkpoint checkpoint_on_disk].
      rewrite Hsync. apply load_save.
    + exists []. rewrite app_nil_r. split; [done|]. split.
      * intros line Hl. by apply elem_of_nil in Hl.
      * intros l Hl. left. by apply dedup_by_id_subset.
    + intros p Hp. by left.
  - split; [|split].
    + intros cp0. cbn [note_request checkpoint checkpoint_on_disk].
      rewrite Hsync. apply load_save.
    + exists []. rewrite app_nil_r. split; [done|]. split.
      * intros line Hl. by apply elem_of_nil in Hl.
      * intros l Hl. by apply elem_of_nil in Hl.
    + intros p Hp. by left.
  - set (lots := extract_lots_from_json data auction_id).
    set (st1 := mark_and_save auction_id page (append_lots page lots (note_request page st))).
    destruct (IH st1 (lots_all ++ lots)%list eq_refl)
      as (Hload & (lines & Hlog & Hlines & Hlots) & Hmarked).
    assert (Hpage : is_page_done (checkpoint st1) auction_id page = true).
    { apply is_page_done_mark_and_save. by right. }
    assert (Hkeeps : forall p, is_page_done (checkpoint st1) auction_id p = true ->
              is_page_done (checkpoint (loop pages st1 (lots_all ++ lots)%list).2)
                auction_id p = true).
    { intros p. apply page_loop_keeps_done. }
    assert (Hback : forall p, is_page_done (checkpoint st1) auction_id p = false ->
              is_page_done (checkpoint st) auction_id p = false).
    { intros p Hp. destruct (is_page_done (checkpoint st) auction_id p) eqn:E; [|done].
      rewrite <- Hp. symmetry. apply is_page_done_mark_and_save. by left. }
    split; [exact Hload|]. split.
    + exists (List.map (fun l => MkLogLine page l (Some "api")) lots ++ lines)%list.
      split; [rewrite Hlog; subst st1; cbn [out_jsonl mark_and_save append_lots note_request];
              by rewrite <- app_assoc|].
      split.
      * intros line Hl. apply elem_of_app in Hl as [Hl|Hl].
        -- apply elem_of_map_log in Hl as (Hsrc & Hpg & _). rewrite Hpg.
           split; [done|]. split; [by left|]. split; [by destruct Hpend|].
           by apply Hkeeps.
        -- destruct (Hlines line Hl) as (? & ? & ? & ?).
           split; [done|]. split; [by right|]. split; [by apply Hback|done].
      * intros l Hl. destruct (Hlots l Hl) as [Hin|(line & Hin & Hline)].
        -- apply elem_of_app in Hin as [Hin|Hin]; [by left|]. right.
           exists (MkLogLine page l (Some "api")). split; [|done].
           apply elem_of_app. left. rewrite list_elem_of_In. apply in_map_iff.
           exists l. split; [done|]. by apply list_elem_of_In.
        -- right. exists line. split; [|done]. apply elem_of_app. by right.
    + intros p Hp. destruct (Hmarked p Hp) as [Hdone|[Hin Hreq]].
      * apply is_page_done_mark_and_save in Hdone as [Hdone| ->]; [by left|].
        right. split; [by left|].
        apply page_loop_requests_kept.
        subst st1. cbn [requested mark_and_save append_lots note_request].
        apply elem_of_app. right. by left.
      * right. split; [by right|done].
Qed.

(** X7: as soon as a request of the loop is answered with status 401 or
    403 the whole result is dropped: the function returns no record at
    all, whatever was gathered before, and the page stays out of the
    checkpoint. *)
Theorem page_loop_auth_refusal_drops_all (pages : list Z) (st : crawl_state)
    (lots_all : list Lot) (p : Z) :
  refused p ->
  p ∈ requested (loop pages st lots_all).2 -> p ∉ requested st ->
  (loop pages st lots_all).1 = []
  /\ is_page_done (checkpoint (loop pages st lots_all).2) auction_id p = false.
Proof.
  revert st lots_all. induction pages as [|page pages IH]; intros st lots_all Href Hin Hnot.
  { done. }
  cbn [page_loop] in *.
  destruct (page_turn_cases page st lots_all)
    as [[_ [Ht|Ht]]|[Hpend [[Hok Ht]|[[_ Ht]|(data & Hok & Ht)]]]];
    rewrite Ht in *; cbn [fst snd] in *.
  - done.
  - by apply IH.
  - cbn [requested note_request] in Hin.
    apply elem_of_app in Hin as [Hin|Hin]; [done|].
    by apply list_elem_of_singleton in Hin as ->.
  - split; [done|]. cbn [requested note_request checkpoint] in *.
    apply elem_of_app in Hin as [Hin|Hin]; [done|].
    apply list_elem_of_singleton in Hin as ->. by destruct Hpend.
  - destruct (decide (p = page)) as [->|Hne]; [done|].
    apply IH; [done|done|].
    cbn [requested mark_and_save append_lots note_request].
    intros Hp. apply elem_of_app in Hp as [Hp|Hp]; [done|].
    by apply list_elem_of_singleton in Hp.
Qed.
End paging_facts.

(** The three-page endpoint of the examples, paged from a state whose
    file was just saved. *)
Lemma page_loop_log_and_checkpoint_witness :
  let run :=
    @page_loop example_runtime example_paginate_url (fun _ _ => None)
      (fun _ => true) example_request "a1" None (Some 3) "GET"
      "https://leilao.example/api/lotes" None [2; 3] example_state [] in
  load (checkpoint_on_disk run.2) fresh_checkpoint = checkpoint run.2.
Proof.
  destruct (@page_loop_log_and_checkpoint example_runtime example_paginate_url
              (fun _ _ => None) (fun _ => true) example_request "a1" None (Some 3)
              "GET" "https://leilao.example/api/lotes" None [2; 3] example_state []
              eq_refl) as [H _].
  exact (H fresh_checkpoint).
Defined.

(** The same endpoint answering page 2 with status 403, with one record
    already gathered from page 1. *)
Lemma page_loop_auth_refusal_drops_all_witness :
  (@page_loop example_runtime example_paginate_url (fun _ _ => None)
     (fun _ => true) refusing_request "a1" None (Some 3) "GET"
     "https://leilao.example/api/lotes" None [2; 3] example_state
     [mk_lot "a1" "7" "Moto" false]).1 = [].
Proof.
  refine (proj1 (@page_loop_auth_refusal_drops_all example_runtime example_paginate_url
            (fun _ _ => None) (fun _ => true) refusing_request "a1" None (Some 3)
            "GET" "https://leilao.example/api/lotes" None [2; 3] example_state
            [mk_lot "a1" "7" "Moto" false] 2 _ _ _)).
  - exists 403, None. split; [vm_compute; reflexivity | by right].
  - vm_compute. left.
  - apply not_elem_of_nil.
Defined.
(** ** Four-digit years *)










Lemma first_some_elem {A B} (f : A -> option B) (l : list A) (v : B) :
  first_some f l = Some v -> exists x, x ∈ l /\ f x = Some v.
Proof.
  induction l as [|x l IH]; [done|]. cbn [first_some].
  destruct (f x) as [w|] eqn:Hx; cbn [or_else].
  - intros [= <-]. exists x. split; [by left|done].
  - intros H. destruct (IH H) as (y & Hy & Hfy). exists y. split; [by right|done].
Qed.

Section extract_facts.
Context `{rt : Runtime}.

Lemma extract_lots_items (obj : json) (aid : string) (l : Lot) :
  l ∈ extract_lots_from_json obj aid ->
  exists items it,
    items ∈ _iter_candidate_item_lists obj
    /\ JDict it ∈ items
    /\ l = lot_of_item aid it.
Proof.
  unfold extract_lots_from_json. rewrite extract_loop_first.
  destruct (first_some _ _) as [lots|] eqn:Hfirst; cbn [default].
  2:{ intros Hl. by apply elem_of_nil in Hl. }
  apply first_some_elem in Hfirst as (items & Hitems & Hc).
  apply candidate_lots_nonempty in Hc as [-> _].
  rewrite list_elem_of_In. unfold id. rewrite in_map_iff. intros (it & <- & Hit).
  exists items, it. split; [done|]. split; [|done].
  unfold dict_items in Hit. apply in_flat_map in Hit as (x & Hx & Hin).
  destruct x; try done. apply list_elem_of_In.
  destruct Hin as [<-|[]]. done.
Qed.

End extract_facts.

(** ** Reading a field under one of several names *)

Lemma get_not_none_some (obj : list (string * json)) (k : string) (v : json) :
  get_not_none obj k = Some v <-> dict_get obj k = Some v /\ is_null v = false.
Proof.
  unfold get_not_none. destruct (dict_get obj k) as [w|]; [|by split; [|intros []]].
  destruct (is_null w) eqn:Hn.
  - split; [done|]. intros [[= ->] ?]. congruence.
  - split; [by intros [= ->]|]. by intros [[= ->] _].
Qed.

Lemma first_some_none {A B} (f : A -> option B) (l : list A) :
  (forall x, x ∈ l -> f x = None) -> first_some f l = None.
Proof.
  induction l as [|x l IH]; intros Hall; [done|]. cbn [first_some].
  rewrite (Hall x) by (by left). cbn [or_else]. apply IH.
  intros y Hy. apply Hall. by right.
Qed.

Lemma first_some_at {A B} (f : A -> option B) (pre : list A) (x : A) (post : list A)
    (v : B) :
  (forall y, y ∈ pre -> f y = None) -> f x = Some v ->
  first_some f (pre ++ x :: post) = Some v.
Proof.
  induction pre as [|y pre IH]; intros Hpre Hx; cbn [app first_some].
  - by rewrite Hx.
  - rewrite (Hpre y) by (by left). cbn [or_else]. apply IH; [|done].
    intros z Hz. apply Hpre. by right.
Qed.

(** X10: [_get_first] returns a value that is not null and that the
    object holds under a key equal, up to case, to one of the names
    asked for.  A name that is present in its exact spelling with a value
    that is not null wins over every match up to case, the first such
    name in the list deciding.  When no key of the object that matches a
    name up to case holds a value that is not null, the result is
    [None]. *)
Theorem get_first_exact_then_caseless (obj : list (string * json)) (keys : list string) :
  (forall v, _get_first obj keys = Some v ->
     is_null v = false
     /\ exists k key, k ∈ keys /\ lower key = lower k /\ dict_get obj key = Some v)
  /\ (forall pre k post v,
        keys = (pre ++ k :: post)%list ->
        (forall k', k' ∈ pre -> get_not_none obj k' = None) ->
        get_not_none obj k = Some v ->
        _get_first obj keys = Some v)
  /\ ((forall k key, k ∈ keys -> lower key = lower k -> get_not_none obj key = None) ->
      _get_first obj keys = None).
Proof.
  split; [|split].
  - intros v. unfold _get_first.
    destruct (first_some (get_not_none obj) keys) as [w|] eqn:Hexact; cbn [or_else].
    + intros [= ->]. apply first_some_elem in Hexact as (k & Hk & Hget).
      apply get_not_none_some in Hget as [Hget Hnull].
      split; [done|]. by exists k, k.
    + intros Hlow. apply first_some_elem in Hlow as (k & Hk & Hget).
      destruct (low_get obj (lower k)) as [kk|] eqn:Hkk; [|done].
      apply get_not_none_some in Hget as [Hget Hnull].
      split; [done|]. exists k, kk. split; [done|]. split; [|done].
      unfold low_get in Hkk. apply find_some in Hkk as [_ Heq].
      by apply String.eqb_eq in Heq.
  - intros pre k post v -> Hpre Hk. unfold _get_first.
    by rewrite (first_some_at _ pre k post v Hpre Hk).
  - intros Hnone. unfold _get_first.
    rewrite first_some_none; cbn [or_else].
    + apply first_some_none. intros k Hk.
      destruct (low_get obj (lower k)) as [kk|] eqn:Hkk; [|done].
      apply (Hnone k kk Hk). unfold low_get in Hkk.
      apply find_some in Hkk as [_ Heq]. by apply String.eqb_eq in Heq.
    + intros k Hk. by apply (Hnone k k).
Qed.

(** The name "lote" in its exact spelling wins over "ID", which comes
    first but matches the key "id" only up to case. *)
Lemma get_first_exact_then_caseless_witness :
  _get_first [("id", JInt 1); ("lote", JInt 2)] ["ID"; "lote"] = Some (JInt 2).
Proof.
  destruct (get_first_exact_then_caseless
              [("id", JInt 1); ("lote", JInt 2)] ["ID"; "lote"]) as (_ & H & _).
  apply (H ["ID"] "lote" []); [reflexivity | | reflexivity].
  intros k' Hk'. apply list_elem_of_singleton in Hk' as ->. reflexivity.
Defined.
(** ** JSON-first crawl: the choice of the endpoint and the whole run *)

Lemma last_200_idempotent {A} (l : list A) : last_200 (last_200 l) = last_200 l.
Proof.
  unfold last_200. rewrite length_skipn.
  replace (length l - (length l - 200) - 200)%nat with 0%nat by lia. done.
Qed.

Lemma last_200_nil {A} (l : list A) : last_200 l = [] -> l = [].
Proof.
  unfold last_200. intros H. apply (f_equal length) in H.
  rewrite length_skipn in H. simpl in H.
  destruct l; [done|]. simpl in H. lia.
Qed.

Lemma last_200_suffix {A} (l : list A) :
  exists old, l = (old ++ last_200 l)%list /\ (length (last_200 l) <= 200)%nat.
Proof.
  exists (firstn (length l - 200) l). unfold last_200.
  rewrite firstn_skipn, length_skipn. split; [done|lia].
Qed.

Section try_crawl_facts.
Context `{rt : Runtime}.
Variable paginate_url : string -> Z -> string.
Variable paginate_payload : option string -> Z -> option string.
Variable respect : string -> bool.
Variable request : string -> string -> option string -> api_response.
Variable auction_id : string.

Local Abbreviation lots_of := (entry_lots auction_id).
Local Abbreviation try_crawl :=
  (_try_crawl_lots_via_json_api paginate_url paginate_payload respect request
     auction_id).

Lemma select_best_step (e : traffic_entry) (traffic : list traffic_entry)
    (best : option traffic_entry) (best_lots : list Lot) :
  select_best auction_id (e :: traffic) best best_lots
  = if (length best_lots <? length (lots_of e))%nat
    then select_best auction_id traffic (Some e) (lots_of e)
    else select_best auction_id traffic best best_lots.
Proof.
  unfold entry_lots. cbn [select_best].
  destruct (entry_json e) as [body|]; [|by destruct best_lots].
  destruct body; reflexivity.
Qed.

Lemma select_best_acc (traffic : list traffic_entry) : forall best best_lots,
  (select_best auction_id traffic best best_lots = (best, best_lots)
   /\ forall e, e ∈ traffic -> (length (lots_of e) <= length best_lots)%nat)
  \/ exists pre e post,
       traffic = (pre ++ e :: post)%list
       /\ select_best auction_id traffic best best_lots = (Some e, lots_of e)
       /\ (length best_lots < length (lots_of e))%nat
       /\ (forall e', e' ∈ pre -> (length (lots_of e') < length (lots_of e))%nat)
       /\ (forall e', e' ∈ post -> (length (lots_of e') <= length (lots_of e))%nat).
Proof.
  induction traffic as [|e traffic IH]; intros best best_lots.
  { left. split; [done|]. intros e He. by apply elem_of_nil in He. }
  rewrite select_best_step.
  destruct (length best_lots <? length (lots_of e))%nat eqn:Hlt.
  - apply Nat.ltb_lt in Hlt. right.
    destruct (IH (Some e) (lots_of e))
      as [[Heq Hall]|(pre & e1 & post & -> & Heq & Hgt & Hpre & Hpost)].
    + exists [], e, traffic. split; [done|]. split; [done|]. split; [done|].
      split; [|done]. intros e' He'. by apply elem_of_nil in He'.
    + exists (e :: pre), e1, post. split; [done|]. split; [done|]. split; [lia|].
      split; [|done]. intros e' He'. apply elem_of_cons in He' as [->|He']; [lia|].
      by apply Hpre.
  - apply Nat.ltb_ge in Hlt.
    destruct (IH best best_lots)
      as [[Heq Hall]|(pre & e1 & post & -> & Heq & Hgt & Hpre & Hpost)].
    + left. split; [done|]. intros e' He'.
      apply elem_of_cons in He' as [->|He']; [done|]. by apply Hall.
    + right. exists (e :: pre), e1, post. split; [done|]. split; [done|].
      split; [done|]. split; [|done].
      intros e' He'. apply elem_of_cons in He' as [->|He']; [lia|]. by apply Hpre.
Qed.


Lemma select_best_none (traffic : list traffic_entry) :
  (forall e, e ∈ traffic -> lots_of e = []) ->
  select_best auction_id traffic None [] = (None, []).
Proof.
  intros Hall.
  destruct (select_best_acc traffic None [])
    as [[-> _]|(pre & e & post & -> & _ & Hgt & _)]; [done|].
  rewrite (Hall e) in Hgt; [simpl in Hgt; lia|].
  apply elem_of_app. right. by left.
Qed.

(** X12: only the last 200 captured responses count, and when none of
    them yields a record the function returns no record and leaves the
    checkpoint, its file and the lot log as they were, without sending
    any request. *)
Theorem try_crawl_needs_a_candidate (json_traffic : list traffic_entry)
    (max_pages : option Z) (dry_run : bool) (st : crawl_state) :
  try_crawl json_traffic max_pages dry_run st
  = try_crawl (last_200 json_traffic) max_pages dry_run st
  /\ ((forall e, e ∈ last_200 json_traffic -> lots_of e = []) ->
      try_crawl json_traffic max_pages dry_run st = ([], st)).
Proof.
  split.
  - unfold _try_crawl_lots_via_json_api. rewrite last_200_idempotent.
    destruct json_traffic as [|e traffic]; [done|].
    destruct (last_200 (e :: traffic)) eqn:Hlast; [|done].
    by apply last_200_nil in Hlast.
  - intros Hnone. unfold _try_crawl_lots_via_json_api.
    destruct json_traffic as [|e traffic]; [done|].
    by rewrite (select_best_none _ Hnone).
Qed.
End try_crawl_facts.

(** Captured responses without any list of records. *)
Lemma try_crawl_needs_a_candidate_witness :
  @_try_crawl_lots_via_json_api example_runtime example_paginate_url (fun _ _ => None)
    (fun _ => true) example_request "a1"
    [MkTraffic "https://leilao.example/api/config" 200 "application/json" "GET" []
       None (Some (JDict [("versao", JStr "1.0")]))]
    None false example_state
  = ([], example_state).
Proof.
  refine (proj2 (@try_crawl_needs_a_candidate example_runtime example_paginate_url
            (fun _ _ => None) (fun _ => true) example_request "a1" _ None false
            example_state) _).
  intros e He. vm_compute in He.
  apply list_elem_of_singleton in He as ->. vm_compute. reflexivity.
Defined.
Section paging_results.
Context `{rt : Runtime}.
Variable paginate_url : string -> Z -> string.
Variable paginate_payload : option string -> Z -> option string.
Variable respect : string -> bool.
Variable request : string -> string -> option string -> api_response.
Variable aid : string.
Variable max_pages : option Z.
Variable total_pages : option Z.
Variable method : string.
Variable base_url : string.
Variable post_data : option string.

Local Abbreviation loop :=
  (page_loop paginate_url paginate_payload respect request aid max_pages
     total_pages method base_url post_data).
Local Abbreviation turn_cases :=
  (page_turn_cases paginate_url paginate_payload respect request aid max_pages
     total_pages method base_url post_data).

Lemma page_loop_result_nodup (pages : list Z) : forall st lots_all,
  NoDup (List.map lot_id (loop pages st lots_all).1).
Proof.
  induction pages as [|page pages IH]; intros st lots_all; cbn [page_loop].
  { apply dedup_by_id_nodup. }
  destruct (turn_cases page st lots_all)
    as [[_ [Ht|Ht]]|[Hpend [[_ Ht]|[[_ Ht]|(data & _ & Ht)]]]];
    rewrite Ht; cbn [fst];
    try apply dedup_by_id_nodup; try apply IH. constructor.
Qed.

Lemma page_loop_lots_from (pages : list Z) : forall st lots_all l,
  l ∈ (loop pages st lots_all).1 ->
  l ∈ lots_all \/ exists data, l ∈ extract_lots_from_json data aid.
Proof.
  induction pages as [|page pages IH]; intros st lots_all l; cbn [page_loop].
  { intros Hl. left. by apply dedup_by_id_subset. }
  destruct (turn_cases page st lots_all)
    as [[_ [Ht|Ht]]|[Hpend [[_ Ht]|[[_ Ht]|(data & _ & Ht)]]]];
    rewrite Ht; cbn [fst].
  - intros Hl. left. by apply dedup_by_id_subset.
  - apply IH.
  - intros Hl. left. by apply dedup_by_id_subset.
  - intros Hl. by apply elem_of_nil in Hl.
  - intros Hl. apply IH in Hl as [Hl|Hl]; [|by right].
    apply elem_of_app in Hl as [Hl|Hl]; [by left|]. right. by exists data.
Qed.

Lemma page_loop_keeps_sync (pages : list Z) : forall st lots_all,
  checkpoint_on_disk st = save (checkpoint st) ->
  checkpoint_on_disk (loop pages st lots_all).2
  = save (checkpoint (loop pages st lots_all).2).
Proof.
  induction pages as [|page pages IH]; intros st lots_all Hsync; cbn [page_loop].
  { done. }
  destruct (turn_cases page st lots_all)
    as [[_ [Ht|Ht]]|[Hpend [[_ Ht]|[[_ Ht]|(data & _ & Ht)]]]];
    rewrite Ht; cbn [snd]; try done.
  - by apply IH.
  - by apply IH.
Qed.
End paging_results.

Lemma seqZ_2_upto_2 (target : Z) : target <= 2 -> sublist (seqZ 2 (target - 1)) [2].
Proof.
  intros Hle. destruct (decide (target = 2)) as [->|Hne]; [done|].
  replace (seqZ 2 (target - 1)) with (@nil Z); [apply sublist_nil_l|].
  symmetry. apply seqZ_nil. lia.
Qed.

Lemma select_best_lots_from `{rt : Runtime} (aid : string)
    (traffic : list traffic_entry) (best : traffic_entry) (lots : list Lot) (l : Lot) :
  select_best aid traffic None [] = (Some best, lots) -> l ∈ lots ->
  exists data, l ∈ extract_lots_from_json data aid.
Proof.
  intros Hsel Hl.
  destruct (select_best_acc aid traffic None [])
    as [[Heq _]|(pre & e & post & _ & Heq & _)]; rewrite Heq in Hsel; [done|].
  injection Hsel as <- <-. unfold entry_lots in Hl.
  destruct (entry_json e) as [body|]; [by exists body|]. by apply elem_of_nil in Hl.
Qed.

Section try_crawl_results.
Context `{rt : Runtime}.
Variable paginate_url : string -> Z -> string.
Variable paginate_payload : option string -> Z -> option string.
Variable respect : string -> bool.
Variable request : string -> string -> option string -> api_response.
Variable aid : string.

Local Abbreviation try_crawl :=
  (_try_crawl_lots_via_json_api paginate_url paginate_payload respect request aid).

(** X13: a dry run sends at most one request, for page 2, whatever
    [max_pages] and the total page count of the endpoint are. *)
Theorem try_crawl_dry_run_stops_at_page_2 (json_traffic : list traffic_entry)
    (max_pages : option Z) (st : crawl_state) :
  exists new,
    requested (try_crawl json_traffic max_pages true st).2 = (requested st ++ new)%list
    /\ sublist new [2].
Proof.
  assert (Hnone : exists new : list Z,
             requested st = (requested st ++ new)%list /\ sublist new [2]).
  { exists []. rewrite app_nil_r. split; [done|apply sublist_nil_l]. }
  unfold _try_crawl_lots_via_json_api.
  destruct json_traffic as [|e0 traffic]; [done|].
  destruct (select_best _ _ _ _) as [[best|] [|l best_lots]]; try done.
  cbn zeta.
  match goal with |- context [page_loop _ _ _ _ _ ?mp ?tp ?m ?u ?pd ?pages ?s ?la] =>
    destruct (page_loop_requests paginate_url paginate_payload respect request aid
                mp tp m u pd pages s la) as (new & Hreq & Hsub & _)
  end.
  exists new. split.
  - rewrite Hreq. f_equal. by destruct (negb _).
  - etrans; [exact Hsub|]. apply seqZ_2_upto_2.
    unfold dry_run_pages. lia.
Qed.

(** X14: the records that the JSON-first crawl returns have pairwise
    distinct ids, carry the auction id of the call and ask for no login;
    whenever it returns a record, page 1 is in the checkpoint; a page
    that was checkpointed stays so; and a checkpoint file that agreed
    with the checkpoint in memory still does. *)
Theorem try_crawl_result_well_formed (json_traffic : list traffic_entry)
    (max_pages : option Z) (dry_run : bool) (st : crawl_state) :
  let run := try_crawl json_traffic max_pages dry_run st in
  NoDup (List.map lot_id run.1)
  /\ (forall l, l ∈ run.1 -> auction_id l = aid /\ requires_login l = false)
  /\ (run.1 <> [] -> is_page_done (checkpoint run.2) aid 1 = true)
  /\ (forall p, is_page_done (checkpoint st) aid p = true ->
        is_page_done (checkpoint run.2) aid p = true)
  /\ (checkpoint_on_disk st = save (checkpoint st) ->
      checkpoint_on_disk run.2 = save (checkpoint run.2)).
Proof.
  assert (Hshape : forall data l, l ∈ extract_lots_from_json data aid ->
            auction_id l = aid /\ requires_login l = false).
  { intros data l Hl. by apply extract_lots_items in Hl as (items & it & _ & _ & ->). }
  assert (Hnil : let run := (@nil Lot, st) in
            NoDup (List.map lot_id run.1)
            /\ (forall l, l ∈ run.1 -> auction_id l = aid /\ requires_login l = false)
            /\ (run.1 <> [] -> is_page_done (checkpoint run.2) aid 1 = true)
            /\ (forall p, is_page_done (checkpoint st) aid p = true ->
                  is_page_done (checkpoint run.2) aid p = true)
            /\ (checkpoint_on_disk st = save (checkpoint st) ->
                checkpoint_on_disk run.2 = save (checkpoint run.2))).
  { cbn. split; [constructor|]. split; [|done].
    intros l Hl. by apply elem_of_nil in Hl. }
  unfold _try_crawl_lots_via_json_api.
  destruct json_traffic as [|e0 traffic]; [exact Hnil|].
  pose proof (select_best_lots_from aid (last_200 (e0 :: traffic))) as Hbest.
  destruct (select_best _ _ _ _) as [[best|] [|l0 best_lots]]; try exact Hnil.
  specialize (Hbest best (l0 :: best_lots)).
  clear Hnil. cbn zeta.
  set (st1 := if negb (is_page_done (checkpoint st) aid 1)
              then mark_and_save aid 1 (append_lots 1 (l0 :: best_lots) st) else st).
  assert (Hdone1 : is_page_done (checkpoint st1) aid 1 = true).
  { subst st1. destruct (is_page_done (checkpoint st) aid 1) eqn:H1; cbn [negb]; [done|].
    apply is_page_done_mark_and_save. by right. }
  assert (Hmono : forall p, is_page_done (checkpoint st) aid p = true ->
            is_page_done (checkpoint st1) aid p = true).
  { intros p Hp. subst st1. destruct (negb _); [|done].
    apply is_page_done_mark_and_save. by left. }
  assert (Hsync : checkpoint_on_disk st = save (checkpoint st) ->
            checkpoint_on_disk st1 = save (checkpoint st1)).
  { intros Hs. subst st1. by destruct (negb _). }
  split; [apply page_loop_result_nodup|]. split; [|split; [|split]].
  - intros l Hl. apply page_loop_lots_from in Hl as [Hl|[data Hl]]; [|by eapply Hshape].
    destruct (Hbest l eq_refl Hl) as [data Hdata]. by eapply Hshape.
  - intros _. by apply page_loop_keeps_done.
  - intros p Hp. by apply page_loop_keeps_done, Hmono.
  - intros Hs. by apply page_loop_keeps_sync, Hsync.
Qed.
End try_crawl_results.

(** The example endpoint, crawled from its captured first page. *)
Lemma try_crawl_result_well_formed_witness :
  let run :=
    @_try_crawl_lots_via_json_api example_runtime example_paginate_url
      (fun _ _ => None) (fun _ => true) example_request "a1" example_traffic None
      false example_state in
  List.map lot_id run.1 = ["1"; "9"]
  /\ checkpoint_on_disk run.2 = save (checkpoint run.2).
Proof.
  split; [vm_compute; reflexivity|].
  apply (@try_crawl_result_well_formed example_runtime example_paginate_url
           (fun _ _ => None) (fun _ => true) example_request "a1" example_traffic None
           false example_state).
  reflexivity.
Defined.
Section try_crawl_bounds.
Context `{rt : Runtime}.
Variable paginate_url : string -> Z -> string.
Variable paginate_payload : option string -> Z -> option string.
Variable respect : string -> bool.
Variable request : string -> string -> option string -> api_response.
Variable aid : string.

Local Abbreviation try_crawl :=
  (_try_crawl_lots_via_json_api paginate_url paginate_payload respect request aid).


End try_crawl_bounds.

(** ** Filters: case and unknown values *)

















(** X16: the year range and the price ceiling only reject what is
    known: a lot without a year is accepted or rejected as if no year
    range were configured, and a lot without a starting bid, or with one
    that is not a number, as if no price ceiling were. *)
Theorem accept_passes_unknown_values (cfg : FiltersConfig) (lot : Lot) :
  (year lot = None -> accept cfg lot = accept (without_year_range cfg) lot)
  /\ (start_bid lot = None \/ start_bid lot = Some FNan ->
      accept cfg lot = accept (without_valor_max cfg) lot).
Proof.
  split.
  - intros Hy. unfold accept, accept_checks, run_checks.
    unfold check_ano_min, check_ano_max. rewrite Hy.
    cbn [without_year_range ano_min ano_max].
    by destruct (ano_min cfg), (ano_max cfg).
  - intros Hb. unfold accept, accept_checks, run_checks.
    unfold check_valor_max. cbn [without_valor_max valor_max].
    by destruct Hb as [-> | ->]; destruct (valor_max cfg) as [vmax|].
Qed.

(** A lot of unknown year under a range of years. *)
Lemma accept_passes_unknown_values_witness :
  accept (MkFiltersConfig true true None None (Some 2010) (Some 2020) None None None)
    (mk_lot "a1" "7" "Moto Honda" false)
  = accept (MkFiltersConfig true true None None None None None None None)
      (mk_lot "a1" "7" "Moto Honda" false).
Proof.
  apply (proj1 (accept_passes_unknown_values
                  (MkFiltersConfig true true None None (Some 2010) (Some 2020) None
                     None None)
                  (mk_lot "a1" "7" "Moto Honda" false))).
  reflexivity.
Defined.
(** ** Text normalisation *)

Lemma lstrip_cases (s : string) : lstrip s = "" \/ starts_solid (lstrip s).
Proof.
  induction s as [|c s IH]; [by left|]. cbn [lstrip].
  destruct (py_isspace c) eqn:Hc; [exact IH|]. right. exact Hc.
Qed.

Lemma lstrip_solid (s : string) : starts_solid s -> lstrip s = s.
Proof. destruct s as [|c s]; [done|]. cbn [starts_solid lstrip]. by intros ->. Qed.

Lemma lstrip_idempotent (s : string) : lstrip (lstrip s) = lstrip s.
Proof. destruct (lstrip_cases s) as [-> | H]; [done|]. by apply lstrip_solid. Qed.



















(** ** Lot cards: the records of a page *)



Section lot_card_records.
Context `{rt : Runtime}.
Variable aid : string.
Variable base : string.




End lot_card_records.

(** ** Auction details and the requests path *)

Lemma str_or_idempotent (a p : option string) : str_or (str_or a p) p = str_or a p.
Proof.
  unfold str_or. destruct (opt_truthy a) eqn:Ha; [by rewrite Ha|].
  by destruct (opt_truthy p).
Qed.

Section requests_path_facts.
Context `{rt : Runtime}.
Variable respect : string -> bool.
Variable session_get : string -> nat -> http_answer.
Variable policy : RetryPolicy.
Variable rnd : nat -> Q.
Variable soup : string -> list node.

Local Abbreviation requests_get := (_requests_get respect session_get policy rnd).
Local Abbreviation enrich :=
  (enrich_auction_metadata respect session_get policy rnd soup).
Local Abbreviation fallback :=
  (_crawl_auction_lots_requests_fallback respect session_get policy rnd soup).

Lemma parse_details_idempotent (html : list node) (auction : Auction) :
  parse_auction_details_from_html html (parse_auction_details_from_html html auction)
  = parse_auction_details_from_html html auction.
Proof.
  unfold parse_auction_details_from_html. cbn zeta.
  cbn [auction_auction_id auction_url auction_number auction_city auction_yard
         auction_organizer auction_status auction_ends_at].
  rewrite !str_or_idempotent. f_equal.
  destruct (auction_ends_at auction); [done|]. by destruct (ends_at_loop _ _ _).
Qed.

Lemma parse_details_keeps (html : list node) (auction : Auction) :
  let parsed := parse_auction_details_from_html html auction in
  auction_auction_id parsed = auction_auction_id auction
  /\ auction_url parsed = auction_url auction
  /\ (opt_truthy (auction_number auction) = true ->
      auction_number parsed = auction_number auction)
  /\ (opt_truthy (auction_city auction) = true ->
      auction_city parsed = auction_city auction)
  /\ (opt_truthy (auction_yard auction) = true ->
      auction_yard parsed = auction_yard auction)
  /\ (opt_truthy (auction_organizer auction) = true ->
      auction_organizer parsed = auction_organizer auction)
  /\ (opt_truthy (auction_status auction) = true ->
      auction_status parsed = auction_status auction)
  /\ (is_Some (auction_ends_at auction) ->
      auction_ends_at parsed = auction_ends_at auction).
Proof.
  unfold parse_auction_details_from_html. cbn zeta.
  cbn [auction_auction_id auction_url auction_number auction_city auction_yard
         auction_organizer auction_status auction_ends_at].
  repeat split; try apply str_or_left. by intros [d ->].
Qed.

(** X19: re-reading the details of an auction from the same page
    changes nothing: [parse_auction_details_from_html] is idempotent,
    and so is [enrich_auction_metadata] for the same rendered page and
    the same answers of the server. *)
Theorem enrichment_is_idempotent (html : list node) (playwright : option string)
    (auction : Auction) :
  parse_auction_details_from_html html (parse_auction_details_from_html html auction)
  = parse_auction_details_from_html html auction
  /\ (enrich playwright (enrich playwright auction).1).1 = (enrich playwright auction).1.
Proof.
  split; [apply parse_details_idempotent|].
  unfold enrich_auction_metadata.
  destruct (respect (auction_url auction)) eqn:Hr; cbn [negb].
  2:{ cbn [fst]. by rewrite Hr. }
  destruct playwright as [page|].
  - cbn [fst]. destruct (parse_details_keeps (soup page) auction) as (_ & -> & _).
    rewrite Hr. cbn [negb fst]. apply parse_details_idempotent.
  - cbn zeta. destruct (_requests_get _ _ _ _ _).1 as [page| |] eqn:Hget; cbn [fst].
    + destruct (parse_details_keeps (soup page) auction) as (_ & -> & _).
      rewrite Hr. cbn [negb]. rewrite Hget. cbn [fst]. apply parse_details_idempotent.
    + rewrite Hr. cbn [negb]. by rewrite Hget.
    + rewrite Hr. cbn [negb]. by rewrite Hget.
Qed.

Lemma requests_get_trace (url : string) :
  respect url = true ->
  retry_trace (fun n => _do (session_get url n)) policy _should_retry rnd
    (requests_get url).
Proof.
  intros Hr. unfold _requests_get. rewrite Hr. apply retry_call_has_trace.
Qed.

(** X20: [_requests_get] sends no request to a URL that robots.txt
    disallows and raises [RuntimeError]; otherwise it sends at most
    [max_attempts] requests, every one but the last having failed with a
    timeout, a connection error or an HTTP error status; the text it
    returns is the body of the last answer, whose status is not an error
    status; and an HTTP error status, client errors included, is only
    passed on once the attempts are used up. *)
Theorem requests_get_is_polite (url : string) :
  let run := requests_get url in
  (respect url = false -> run = (Raised RuntimeError, initial_world))
  /\ Z.of_nat (calls run.2) <= Z.max 0 (max_attempts policy)
  /\ (forall i, (i < Nat.pred (calls run.2))%nat ->
        exists exc, _do (session_get url i) = inr exc /\ _should_retry exc = true)
  /\ (forall text, run.1 = Returned text ->
        respect url = true
        /\ exists status,
             session_get url (Nat.pred (calls run.2)) = GetResponse status text
             /\ ~ (400 <= status < 600))
  /\ (forall status, run.1 = Raised (HTTPError status) ->
        Z.of_nat (calls run.2) = max_attempts policy).
Proof.
  intros run. subst run.
  destruct (respect url) eqn:Hr.
  2:{ unfold _requests_get. rewrite Hr. cbn [negb fst snd calls initial_world Nat.pred].
      split; [done|]. split; [lia|]. split; [intros i Hi; lia|]. by split. }
  destruct (requests_get_trace url Hr) as (Hc & _ & Hfail & _ & Hout).
  split; [done|]. split; [exact Hc|]. split; [exact Hfail|]. split.
  - intros text Htext. rewrite Htext in Hout. destruct Hout as [Hdo _].
    split; [done|]. unfold _do in Hdo.
    destruct (session_get url _) as [exc|status body]; [done|].
    destruct ((400 <=? status) && (status <? 600))%Z eqn:Hs; [done|].
    injection Hdo as ->. exists status. split; [done|]. lia.
  - intros status Hst. rewrite Hst in Hout.
    destruct Hout as (_ & _ & [Hmax|Hno]); [done|done].
Qed.

(** X21: [enrich_auction_metadata] never changes the id or the URL of
    an auction nor a field that is already set; it returns the auction
    as it is, without any request, when robots.txt disallows its URL;
    and it sends no request of its own when the rendered page was
    there, at most [max_attempts] otherwise. *)
Theorem enrich_auction_metadata_keeps (playwright : option string) (auction : Auction) :
  let enriched := (enrich playwright auction).1 in
  auction_auction_id enriched = auction_auction_id auction
  /\ auction_url enriched = auction_url auction
  /\ (opt_truthy (auction_number auction) = true ->
      auction_number enriched = auction_number auction)
  /\ (opt_truthy (auction_city auction) = true ->
      auction_city enriched = auction_city auction)
  /\ (opt_truthy (auction_yard auction) = true ->
      auction_yard enriched = auction_yard auction)
  /\ (opt_truthy (auction_organizer auction) = true ->
      auction_organizer enriched = auction_organizer auction)
  /\ (opt_truthy (auction_status auction) = true ->
      auction_status enriched = auction_status auction)
  /\ (is_Some (auction_ends_at auction) ->
      auction_ends_at enriched = auction_ends_at auction)
  /\ (respect (auction_url auction) = false -> enrich playwright auction = (auction, 0%nat))
  /\ (is_Some playwright -> (enrich playwright auction).2 = 0%nat)
  /\ Z.of_nat (enrich playwright auction).2 <= Z.max 0 (max_attempts policy).
Proof.
  assert (Hsame : let enriched := auction in
            auction_auction_id enriched = auction_auction_id auction
            /\ auction_url enriched = auction_url auction
            /\ (opt_truthy (auction_number auction) = true ->
                auction_number enriched = auction_number auction)
            /\ (opt_truthy (auction_city auction) = true ->
                auction_city enriched = auction_city auction)
            /\ (opt_truthy (auction_yard auction) = true ->
                auction_yard enriched = auction_yard auction)
            /\ (opt_truthy (auction_organizer auction) = true ->
                auction_organizer enriched = auction_organizer auction)
            /\ (opt_truthy (auction_status auction) = true ->
                auction_status enriched = auction_status auction)
            /\ (is_Some (auction_ends_at auction) ->
                auction_ends_at enriched = auction_ends_at auction)).
  { cbn zeta. repeat split; done. }
  assert (Hkeeps : forall html, let enriched := parse_auction_details_from_html html auction in
            auction_auction_id enriched = auction_auction_id auction
            /\ auction_url enriched = auction_url auction
            /\ (opt_truthy (auction_number auction) = true ->
                auction_number enriched = auction_number auction)
            /\ (opt_truthy (auction_city auction) = true ->
                auction_city enriched = auction_city auction)
            /\ (opt_truthy (auction_yard auction) = true ->
                auction_yard enriched = auction_yard auction)
            /\ (opt_truthy (auction_organizer auction) = true ->
                auction_organizer enriched = auction_organizer auction)
            /\ (opt_truthy (auction_status auction) = true ->
                auction_status enriched = auction_status auction)
            /\ (is_Some (auction_ends_at auction) ->
                auction_ends_at enriched = auction_ends_at auction)).
  { intros html. apply parse_details_keeps. }
  cbn zeta in *. unfold enrich_auction_metadata.
  destruct (respect (auction_url auction)) eqn:Hr; cbn [negb].
  2:{ cbn [fst snd]. destruct Hsame as (? & ? & ? & ? & ? & ? & ? & ?).
      repeat split; try done; try lia. }
  destruct playwright as [page|].
  - cbn [fst snd]. destruct (Hkeeps (soup page)) as (? & ? & ? & ? & ? & ? & ? & ?).
    repeat split; try done; try lia.
  - cbn zeta.
    destruct (requests_get_trace (auction_url auction) Hr) as (Hc & _).
    destruct (_requests_get _ _ _ _ _).1 as [page| |]; cbn [fst snd].
    + destruct (Hkeeps (soup page)) as (? & ? & ? & ? & ? & ? & ? & ?).
      repeat split; try done; try (by intros [? ?]).
    + destruct Hsame as (? & ? & ? & ? & ? & ? & ? & ?).
      repeat split; try done; try (by intros [? ?]).
    + destruct Hsame as (? & ? & ? & ? & ? & ? & ? & ?).
      repeat split; try done; try (by intros [? ?]).
Qed.

(** X22: the requests fallback returns what the lot log holds, without
    any request, when page 1 is checkpointed.  Otherwise, when it
    returns records, there is at least one, each is on a line of the lot
    log for page 1, page 1 is checkpointed and the checkpoint file
    written; and when the page has no card that mentions a lot it
    raises [TypeError] and leaves the checkpoint and the log as they
    were, as it does on any failure of the request. *)
Theorem requests_fallback_outcomes (aid url : string) (existing : list Lot)
    (st : crawl_state) :
  let run := fallback aid url existing st in
  (is_page_done (checkpoint st) aid 1 = true -> run = (Returned existing, st))
  /\ (is_page_done (checkpoint st) aid 1 = false ->
      forall lots, run.1 = Returned lots ->
        lots <> []
        /\ is_page_done (checkpoint run.2) aid 1 = true
        /\ checkpoint_on_disk run.2 = save (checkpoint run.2)
        /\ out_jsonl run.2
           = (out_jsonl st ++ List.map (fun l => MkLogLine 1 l None) lots)%list
        /\ exists html,
             (requests_get url).1 = Returned html
             /\ parse_lot_cards_from_html aid url (soup html) = Some lots)
  /\ (forall exc, run.1 = Raised exc -> run.2 = st)
  /\ (forall html,
        is_page_done (checkpoint st) aid 1 = false ->
        (requests_get url).1 = Returned html ->
        (forall card, card ∈ soup_select sel_div_article (soup html) ->
           str_in "lote" (lower (element_text card)) = false) ->
        run = (Raised TypeError, st)).
Proof.
  cbn zeta. unfold _crawl_auction_lots_requests_fallback.
  destruct (is_page_done (checkpoint st) aid 1) eqn:Hdone.
  { split; [done|]. split; [done|]. split; [done|]. done. }
  split; [done|].
  destruct (_requests_get _ _ _ _ _).1 as [page| |] eqn:Hget.
  2,3: by (split; [done|]; split; [done|]; intros html _ Hhtml; discriminate).
  destruct (parse_lot_cards_from_html aid url (soup page)) as [lots|] eqn:Hp.
  - cbn [fst snd]. split; [|split; [done|]].
    + intros _ lots' [= <-]. split.
      { intros ->. unfold parse_lot_cards_from_html in Hp.
        destruct (outer_card_loop_cases aid url (soup page)
                    (soup_select sel_div_article (soup page))) as [Hnone|Hex];
          [congruence|].
        rewrite (outer_card_loop_some _ _ _ _ Hex) in Hp. injection Hp as Hp.
        by apply (lots_of_page_not_nil aid url (soup page) Hex). }
      split; [apply is_page_done_mark_and_save; by right|].
      split; [done|]. split; [done|]. by exists page.
    + intros html _ [= <-] Hno. exfalso.
      unfold parse_lot_cards_from_html in Hp.
      assert (Hnone : outer_card_loop aid url (soup page)
                        (soup_select sel_div_article (soup page)) = None).
      { apply outer_card_loop_none. intros card Hc. unfold mentions_lote.
        by rewrite (Hno card Hc), andb_false_r. }
      congruence.
  - cbn [fst snd]. split; [done|]. split; [done|]. done.
Qed.
End requests_path_facts.

(** A server that answers with a page without elements: the fallback
    raises and the checkpoint stays empty. *)
Lemma requests_fallback_outcomes_witness :
  @_crawl_auction_lots_requests_fallback example_runtime (fun _ => true)
    (fun _ _ => GetResponse 200 "<html></html>") default_policy (fun _ => 0%Q)
    (fun _ => []) "a1" "https://leilao.example/a1" []
    (MkCrawlState fresh_checkpoint None [] [])
  = (Raised TypeError, MkCrawlState fresh_checkpoint None [] []).
Proof.
  refine (proj2 (proj2 (proj2
            (@requests_fallback_outcomes example_runtime (fun _ => true)
               (fun _ _ => GetResponse 200 "<html></html>") default_policy
               (fun _ => 0%Q) (fun _ => []) "a1" "https://leilao.example/a1" []
               (MkCrawlState fresh_checkpoint None [] []))))
            "<html></html>" _ _ _).
  - reflexivity.
  - reflexivity.
  - intros card Hc. by apply elem_of_nil in Hc.
Defined.
(** ** Checkpoint: the order of the marks *)




(** ** Header redaction *)

Lemma dict_set_elem (d : list (string * string)) (k v k0 v0 : string) :
  In (k0, v0) (dict_set d k v) -> (k0 = k /\ v0 = v) \/ In (k0, v0) d.
Proof.
  induction d as [|[k' v'] d IH]; cbn [dict_set].
  - intros [[= <- <-]|[]]. by left.
  - destruct (String.eqb_spec k' k) as [->|Hne].
    + intros [[= <- <-]|Hin]; [by left|]. right. by right.
    + intros [[= <- <-]|Hin]; [right; by left|].
      destruct (IH Hin) as [?|?]; [by left|]. right. by right.
Qed.

Lemma dict_set_keys (d : list (string * string)) (k v : string) :
  List.map fst (dict_set d k v)
  = if in_keys k (List.map fst d) then List.map fst d
    else (List.map fst d ++ [k])%list.
Proof.
  induction d as [|[k' v'] d IH]; cbn [dict_set]; [done|].
  cbn [List.map fst in_keys existsb]. rewrite (String.eqb_sym k k').
  destruct (String.eqb k' k); cbn [orb List.map fst]; [done|].
  rewrite IH. unfold in_keys. by destruct (existsb _ _).
Qed.

Lemma dict_set_nodup (d : list (string * string)) (k v : string) :
  NoDup (List.map fst d) -> NoDup (List.map fst (dict_set d k v)).
Proof.
  intros Hnd. rewrite dict_set_keys.
  destruct (in_keys k (List.map fst d)) eqn:Hin; [done|].
  apply in_keys_false in Hin.
  apply NoDup_app. split; [done|]. split; [|apply NoDup_singleton].
  intros x Hx Hx'. apply list_elem_of_singleton in Hx' as ->.
  by apply Hin, list_elem_of_In.
Qed.

Lemma dict_set_fresh (d : list (string * string)) (k v : string) :
  ~ In k (List.map fst d) -> dict_set d k v = (d ++ [(k, v)])%list.
Proof.
  induction d as [|[k' v'] d IH]; intros Hnot; cbn [dict_set]; [done|].
  destruct (String.eqb_spec k' k) as [->|Hne].
  - exfalso. apply Hnot. by left.
  - rewrite IH; [done|]. intros Hin. apply Hnot. by right.
Qed.

Lemma redact_loop_cons (kv : string * string) (items redacted : list (string * string)) :
  redact_loop (kv :: items) redacted
  = redact_loop items
      (dict_set redacted kv.1
         (if in_keys (lower kv.1) _SENSITIVE_HEADERS then "<redacted>" else kv.2)).
Proof. unfold redact_loop. cbn [fold_left]. by destruct (in_keys _ _). Qed.

Lemma redact_loop_nodup (items : list (string * string)) : forall redacted,
  NoDup (List.map fst redacted) -> NoDup (List.map fst (redact_loop items redacted)).
Proof.
  induction items as [|kv items IH]; intros redacted Hnd; [done|].
  rewrite redact_loop_cons. by apply IH, dict_set_nodup.
Qed.

Lemma redact_loop_keys (items : list (string * string)) : forall redacted k,
  In k (List.map fst (redact_loop items redacted))
  <-> In k (List.map fst redacted) \/ In k (List.map fst items).
Proof.
  induction items as [|kv items IH]; intros redacted k.
  - cbn. tauto.
  - rewrite redact_loop_cons, IH, dict_set_keys. cbn [List.map In].
    destruct (in_keys kv.1 (List.map fst redacted)) eqn:Hin.
    + apply in_keys_elem, list_elem_of_In in Hin. split; [tauto|].
      intros [?|[<-|?]]; tauto.
    + rewrite in_app_iff. cbn [In]. tauto.
Qed.

Lemma redact_loop_values (all items : list (string * string)) : forall redacted,
  (forall kv, In kv items -> In kv all) ->
  (forall k v, In (k, v) redacted ->
     if in_keys (lower k) _SENSITIVE_HEADERS then v = "<redacted>" else In (k, v) all) ->
  forall k v, In (k, v) (redact_loop items redacted) ->
    if in_keys (lower k) _SENSITIVE_HEADERS then v = "<redacted>" else In (k, v) all.
Proof.
  induction items as [|[k1 v1] items IH]; intros redacted Hsub Hacc k v; [apply Hacc|].
  rewrite redact_loop_cons. apply IH.
  - intros kv Hkv. apply Hsub. by right.
  - intros k0 v0 Hin. apply dict_set_elem in Hin as [[-> ->]|Hin]; [|by apply Hacc].
    cbn [fst snd]. destruct (in_keys (lower k1) _SENSITIVE_HEADERS); [done|].
    apply Hsub. by left.
Qed.

Lemma redact_loop_distinct (items : list (string * string)) : forall redacted,
  NoDup (List.map fst redacted ++ List.map fst items) ->
  redact_loop items redacted
  = (redacted
     ++ List.map (fun kv => (kv.1, if in_keys (lower kv.1) _SENSITIVE_HEADERS
                                   then "<redacted>" else kv.2)) items)%list.
Proof.
  induction items as [|kv items IH]; intros redacted Hnd.
  - cbn. by rewrite app_nil_r.
  - rewrite redact_loop_cons.
    assert (Hfresh : ~ In kv.1 (List.map fst redacted)).
    { intros Hin. apply NoDup_app in Hnd as (_ & Hdisj & _).
      apply (Hdisj kv.1); [by apply list_elem_of_In | by left]. }
    rewrite (dict_set_fresh _ _ _ Hfresh), IH.
    + cbn [List.map]. by rewrite <- app_assoc.
    + rewrite map_app. cbn [List.map fst]. rewrite <- app_assoc. exact Hnd.
Qed.

(** X24: [redact_headers] keeps the names of the headers, each once,
    and never lets the value of a sensitive header through: under a name
    that is "authorization", "cookie", "set-cookie" or "x-api-key" in
    any letter case the value is "<redacted>", and every other entry is
    one of the given headers; redacting twice is redacting once. *)
Theorem redact_headers_hides_credentials (headers : list (string * string)) :
  NoDup (List.map fst (redact_headers headers))
  /\ (forall k, In k (List.map fst (redact_headers headers)) <-> In k (List.map fst headers))
  /\ (forall k v, In (k, v) (redact_headers headers) ->
        if in_keys (lower k) _SENSITIVE_HEADERS then v = "<redacted>"
        else In (k, v) headers)
  /\ redact_headers (redact_headers headers) = redact_headers headers.
Proof.
  assert (Hnd : NoDup (List.map fst (redact_headers headers))).
  { apply redact_loop_nodup. constructor. }
  assert (Hval : forall k v, In (k, v) (redact_headers headers) ->
            if in_keys (lower k) _SENSITIVE_HEADERS then v = "<redacted>"
            else In (k, v) headers).
  { apply (redact_loop_values headers headers []); [done|]. by intros k v []. }
  split; [exact Hnd|]. split; [|split; [exact Hval|]].
  - intros k. unfold redact_headers. rewrite redact_loop_keys. cbn. tauto.
  - unfold redact_headers at 1. rewrite redact_loop_distinct by done.
    cbn [app]. rewrite <- (map_id (redact_headers headers)) at 2.
    apply map_ext_in. intros [k v] Hin. cbn [fst snd]. specialize (Hval k v Hin).
    destruct (in_keys (lower k) _SENSITIVE_HEADERS); [by rewrite Hval|done].
Qed.
